(** * log_analyzer: a shallow embedding of [log_analyzer.py]

    The development follows the pipeline of the script: the locator
    ([find_most_recent_log]), the line parser ([parse_log]), the aggregator
    ([count_url]), the statistics computer ([count_url_stats]) and the report
    writer ([write_report]).

    Modelling conventions.
    - Python text is a list of characters with code points below 256
      ([ascii]); on that range [\d] is [0-9] and [str.split] separates on the
      twelve characters for which [str.isspace] holds.
    - Python floats are read at two levels.  The modules [Parser],
      [Aggregator] and [Stats] take a float for the rational that its
      decimal writes and compute without rounding error: this decides the
      control flow, the exceptions, the counts and the order of the
      results.  The module [Binary64] runs the same code on IEEE 754
      binary64 numbers, every operation rounded to nearest, ties to even;
      what is stated of a computed value (a sum, the total, a rounded
      field) is stated there.
    - A raised exception is a value of [exn]; a call returns [result].
    - A dict is an association list in insertion order with distinct keys. *)

From Stdlib Require Import List String Ascii Bool Arith ZArith QArith Qround.
From Stdlib Require Import Qabs Qpower Lia Lqa Permutation Sorted.
Import ListNotations.

Set Implicit Arguments.

(** ** Python runtime: exceptions and results *)

Module Py.

Inductive exn : Type :=
| AttributeError
| UnboundLocalError (var : string)
| ValueError (msg : string)
| ZeroDivisionError
| TypeError
| IndexError
| StatisticsError
| SystemExit (code : Z).

Inductive result (A : Type) : Type :=
| Ok (a : A)
| Raise (e : exn).

Arguments Ok {A} a.
Arguments Raise {A} e.

Definition bind {A B} (r : result A) (k : A -> result B) : result B :=
  match r with
  | Ok a => k a
  | Raise e => Raise e
  end.

(** Text helpers. *)
Definition text := list ascii.

Definition str (s : string) : text := list_ascii_of_string s.

Definition newline : ascii := ascii_of_nat 10.
Definition dquote : ascii := ascii_of_nat 34.

Definition is_digit (c : ascii) : bool :=
  let n := nat_of_ascii c in (48 <=? n) && (n <=? 57).

(** [str.isspace] on code points below 256. *)
Definition is_space (c : ascii) : bool :=
  let n := nat_of_ascii c in
  ((9 <=? n) && (n <=? 13)) || ((28 <=? n) && (n <=? 32))
  || (n =? 133) || (n =? 160).

Fixpoint text_eqb (a b : text) : bool :=
  match a, b with
  | [], [] => true
  | x :: a', y :: b' => Ascii.eqb x y && text_eqb a' b'
  | _, _ => false
  end.

(** Python's [/] on floats. *)
Definition py_div (a b : Q) : result Q :=
  if Qeq_bool b 0 then Raise ZeroDivisionError else Ok (a / b).

(** Python's [a > b] on floats. *)
Definition Qgtb (a b : Q) : bool := negb (Qle_bool a b).

(** An [int] used in float arithmetic. *)
Definition Qnat (n : nat) : Q := inject_Z (Z.of_nat n).

(** [sum(ds)], adding from the left. *)
Definition sum (ds : list Q) : Q := fold_left Qplus ds 0.

(** [s.split()]: maximal runs of non-space characters. *)
Fixpoint split_ws (cur : text) (s : text) : list text :=
  match s with
  | [] => match cur with [] => [] | _ => [rev cur] end
  | c :: s' =>
      if is_space c
      then match cur with
           | [] => split_ws [] s'
           | _ => rev cur :: split_ws [] s'
           end
      else split_ws (c :: cur) s'
  end.

Definition split (s : text) : list text := split_ws [] s.

(** Value of a run of decimal digits. *)
Definition digit_val (c : ascii) : Z := (Z.of_nat (nat_of_ascii c) - 48)%Z.

Definition int_of_digits (s : text) : Z :=
  fold_left (fun acc c => (10 * acc + digit_val c)%Z) s 0%Z.

End Py.

Notation "x <- c1 ;; c2" := (Py.bind c1 (fun x => c2))
  (at level 61, c1 at next level, right associativity).

(** ** The [re] patterns of the script

    A backtracking matcher in continuation-passing style, as Python's [re]
    explores alternatives: greedy repetition first tries to take one more
    character, alternation tries the left branch first. *)

Module Regex.
Import Py.

Inductive cls : Type :=
| CAny                 (* [.] : anything but a newline *)
| CDigit               (* [\d] *)
| CLit (c : ascii).    (* a literal character *)

Inductive re : Type :=
| Eps
| Atom (c : cls)
| Rep (c : cls) (n : nat)   (* [c{n}] *)
| Plus (c : cls)            (* [c+], greedy *)
| Grp (r : re)              (* capturing group *)
| Alt (r1 r2 : re)
| Cat (r1 r2 : re)
| Eol.                      (* [$] *)

Definition cls_ok (c : cls) (x : ascii) : bool :=
  match c with
  | CAny => negb (Ascii.eqb x newline)
  | CDigit => is_digit x
  | CLit y => Ascii.eqb x y
  end.

Section Matcher.
Variable R : Type.

Fixpoint rep (p : ascii -> bool) (n : nat) (s : text)
         (k : text -> option R) : option R :=
  match n with
  | O => k s
  | S n' =>
      match s with
      | x :: s' => if p x then rep p n' s' k else None
      | [] => None
      end
  end.

Fixpoint plus (p : ascii -> bool) (s : text)
         (k : text -> option R) : option R :=
  match s with
  | x :: s' =>
      if p x
      then match plus p s' k with
           | Some r => Some r
           | None => k s'
           end
      else None
  | [] => None
  end.

Fixpoint mt (r : re) (s : text) (caps : list text)
         (k : text -> list text -> option R) : option R :=
  match r with
  | Eps => k s caps
  | Atom c =>
      match s with
      | x :: s' => if cls_ok c x then k s' caps else None
      | [] => None
      end
  | Rep c n => rep (cls_ok c) n s (fun s' => k s' caps)
  | Plus c => plus (cls_ok c) s (fun s' => k s' caps)
  | Grp r' =>
      mt r' s caps
         (fun s' caps' =>
            k s' (caps' ++ [firstn (List.length s - List.length s') s]))
  | Alt r1 r2 =>
      match mt r1 s caps k with
      | Some x => Some x
      | None => mt r2 s caps k
      end
  | Cat r1 r2 => mt r1 s caps (fun s' caps' => mt r2 s' caps' k)
  | Eol =>
      match s with
      | [] => k s caps
      | [x] => if Ascii.eqb x newline then k s caps else None
      | _ => None
      end
  end.
End Matcher.

(** [pattern.search(s)] for a pattern that opens with [^] and is compiled
    without [re.MULTILINE]: the only candidate offset is 0.  The result is
    the list of captured groups, in group order. *)
Definition search (r : re) (s : text) : option (list text) :=
  mt r s [] (fun _ caps => Some caps).

Fixpoint lit (s : text) : re :=
  match s with
  | [] => Eps
  | c :: s' => Cat (Atom (CLit c)) (lit s')
  end.

Fixpoint cat (rs : list re) : re :=
  match rs with
  | [] => Eps
  | r :: rs' => Cat r (cat rs')
  end.

End Regex.

(** ** Log Locator: [find_most_recent_log] *)

Module Locator.
Import Py Regex.

(** [LOG_FILENAME_PATTERN = ^nginx-access-ui.log-(\d{8}).(gz|log)$];
    the two dots are unescaped in the script and match any character. *)
Definition LOG_FILENAME_PATTERN : re :=
  cat [ lit (str "nginx-access-ui"); Atom CAny; lit (str "log-");
        Grp (Rep CDigit 8); Atom CAny;
        Grp (Alt (lit (str "gz")) (lit (str "log"))); Eol ].

(** The value of [datetime.strptime(_, "%Y%m%d")]: a calendar day. *)
Record datetime : Type := mkDate { year : Z; month : Z; day : Z }.

Definition is_leap (y : Z) : bool :=
  ((y mod 4 =? 0) && (negb (y mod 100 =? 0) || (y mod 400 =? 0)))%Z.

Definition days_in_month (y m : Z) : Z :=
  (if m =? 2 then (if is_leap y then 29 else 28)
   else if (m =? 4) || (m =? 6) || (m =? 9) || (m =? 11) then 30
   else 31)%Z.

(** [datetime.strptime(s, "%Y%m%d")] on the eight digits captured by the
    file-name pattern: four digits of year, a month 01..12 and a day
    01..31 that exists in that month; anything else is a [ValueError]
    (its message, which the script never reads, is abbreviated). *)
Definition strptime (s : text) : result datetime :=
  match s with
  | [y1; y2; y3; y4; m1; m2; d1; d2] =>
      let y := int_of_digits [y1; y2; y3; y4] in
      let m := int_of_digits [m1; m2] in
      let d := int_of_digits [d1; d2] in
      if forallb is_digit s
         && ((1 <=? m) && (m <=? 12) && (1 <=? d) && (d <=? 31))%Z
      then if ((1 <=? y) && (d <=? days_in_month y m))%Z
           then Ok (mkDate y m d)
           else Raise (ValueError "strptime")
      else Raise (ValueError "strptime")
  | _ => Raise (ValueError "strptime")
  end.

(** [a > b] on [datetime] values. *)
Definition date_gtb (a b : datetime) : bool :=
  ((year b <? year a)
   || ((year b =? year a)
       && ((month b <? month a)
           || ((month b =? month a) && (day b <? day a)))))%Z.

Record LogFile : Type :=
  mkLogFile { path : text; date : datetime; extension : text }.

(** Local variables of [find_most_recent_log]; [None] is Python's [None]
    for the three [most_recent_*] names and "not yet bound" for
    [parsed_date], which is only assigned inside the [try]. *)
Record scan : Type := mkScan {
  most_recent_date : option datetime;
  most_recent_file : option text;
  most_recent_ext : option text;
  parsed_date : option datetime
}.

Definition scan0 : scan := mkScan None None None None.

Section Scan.
(** [os.path.abspath(os.path.join(directory, file))]. *)
Variable abspath_join : text -> text -> text.
Variable directory : text.

(** One pass through the body of the [for] loop, up to and including
    the [return] that closes it. *)
Definition loop_body (st : scan) (file : text) : result LogFile :=
  match search LOG_FILENAME_PATTERN file with
  | Some [date_s; ext] =>
      (* try: parsed_date = strptime(...)  except ValueError: print(...) *)
      let pd := match strptime date_s with
                | Ok d => Some d
                | Raise _ => parsed_date st
                end in
      st' <- match most_recent_date st with
             | None =>
                 match pd with
                 | Some d => Ok (mkScan (Some d) (Some file) (Some ext) pd)
                 | None => Raise (UnboundLocalError "parsed_date")
                 end
             | Some mr =>
                 match pd with
                 | Some d =>
                     if date_gtb d mr
                     then Ok (mkScan (Some d) (Some file) (Some ext) pd)
                     else Ok (mkScan (most_recent_date st)
                                     (most_recent_file st)
                                     (most_recent_ext st) pd)
                 | None => Raise (UnboundLocalError "parsed_date")
                 end
             end ;;
      match most_recent_file st', most_recent_date st',
            most_recent_ext st' with
      | Some f, Some d, Some e => Ok (mkLogFile (abspath_join directory f) d e)
      | _, _, _ => Raise TypeError
      end
  | _ => Raise AttributeError      (* [search] is [None] *)
  end.

(** The function: [listing] is [None] when [directory] is not a
    directory, and otherwise [os.listdir(directory)] in the order the
    system returns it.  The [return] is the last statement of the loop
    body, so the loop never starts a second pass; an empty listing falls
    off the end of the function and yields Python's [None]. *)
Definition find_most_recent_log (listing : option (list text))
  : result (option LogFile) :=
  match listing with
  | None => Raise (SystemExit (-1))
  | Some [] => Ok None
  | Some (file :: _) =>
      r <- loop_body scan0 file ;; Ok (Some r)
  end.
End Scan.

End Locator.

(** ** Line Parser: [parse_log] *)

Module Parser.
Import Py Regex.

(** [LOG_FORMAT_PATTERN = ^.+\[.+\] \"(.+)\" \d{3}.+ (\d+.\d+)];
    the dot inside the second group is unescaped. *)
Definition LOG_FORMAT_PATTERN : re :=
  cat [ Plus CAny; Atom (CLit "["); Plus CAny; Atom (CLit "]");
        Atom (CLit " "); Atom (CLit dquote); Grp (Plus CAny);
        Atom (CLit dquote); Atom (CLit " "); Rep CDigit 3; Plus CAny;
        Atom (CLit " ");
        Grp (cat [Plus CDigit; Atom CAny; Plus CDigit]) ].

Record LogLine : Type := mkLogLine { url : text; time : Q }.

(** Longest prefix of digits, and what follows it. *)
Fixpoint span_digits (s : text) : text * text :=
  match s with
  | c :: s' =>
      if is_digit c
      then let (a, b) := span_digits s' in (c :: a, b)
      else ([], s)
  | [] => ([], [])
  end.

(** [float(s)] on the texts the second group can capture: digits, one
    character, digits.  The middle character may be a digit (an integer
    literal), a point, an exponent mark or an underscore; [float] rejects
    every other character with a [ValueError].  The result is the decimal
    that [s] writes; [Binary64.float] rounds it to the nearest float.
    Overflow to infinity is outside the model. *)
Definition py_float (s : text) : result Q :=
  match span_digits s with
  | ((_ :: _) as a, []) => Ok (inject_Z (int_of_digits a))
  | ((_ :: _) as a, c :: ((_ :: _) as b)) =>
      if forallb is_digit b
      then if Ascii.eqb c "."
           then Ok (inject_Z (int_of_digits a)
                    + inject_Z (int_of_digits b)
                      / inject_Z (10 ^ Z.of_nat (List.length b)))
           else if Ascii.eqb c "e" || Ascii.eqb c "E"
           then Ok (inject_Z (int_of_digits a * 10 ^ int_of_digits b))
           else if Ascii.eqb c "_"
           then Ok (inject_Z (int_of_digits (a ++ b)))
           else Raise (ValueError "could not convert string to float")
      else Raise (ValueError "could not convert string to float")
  | _ => Raise (ValueError "could not convert string to float")
  end.

(** A finite generator: the values it yields, ended by exhaustion or by
    an exception that escapes the generator body. *)
Inductive stream (A : Type) : Type :=
| SNil
| SCons (a : A) (s : stream A)
| SRaise (e : exn).

Arguments SNil {A}.
Arguments SCons {A} a s.
Arguments SRaise {A} e.

(** The body of the [for line in f] loop on one decoded line.  [url_var]
    is the local name [url]: unbound ([None]) until a first successful
    unpacking, and kept from one line to the next.  ([method] and
    [protocol] are bound with it and never read.)  The result is the
    yielded value and the new binding. *)
Definition parse_line (url_var : option text) (line : text)
  : result (option LogLine * option text) :=
  match search LOG_FORMAT_PATTERN line with
  | Some [g1; g2] =>
      (* try: method, url, protocol = ...split()
         except ValueError: print(...) *)
      let url_var' := match split g1 with
                      | [_; u; _] => Some u
                      | _ => url_var
                      end in
      request_time <- py_float g2 ;;
      match url_var' with
      | Some u => Ok (Some (mkLogLine u request_time), url_var')
      | None => Raise (UnboundLocalError "url")
      end
  | _ => Ok (None, url_var)           (* yield None; continue *)
  end.

Fixpoint parse_lines (url_var : option text) (lines : list text)
  : stream (option LogLine) :=
  match lines with
  | [] => SNil
  | line :: rest =>
      match parse_line url_var line with
      | Ok (item, url_var') => SCons item (parse_lines url_var' rest)
      | Raise e => SRaise e
      end
  end.

(** [parse_log(log)], given the decoded lines of the file [log.path]. *)
Definition parse_log (lines : list text) : stream (option LogLine) :=
  parse_lines None lines.

(** The values of a stream that ends by exhaustion. *)
Fixpoint items {A} (s : stream A) : option (list A) :=
  match s with
  | SNil => Some []
  | SCons a s' => option_map (cons a) (items s')
  | SRaise _ => None
  end.

End Parser.

(** ** Aggregator: [count_url] *)

Module Aggregator.
Import Py Parser.

(** [defaultdict(list)] keyed by URL, in insertion order. *)
Definition dict : Type := list (text * list Q).

(** [d[k].append(v)]. *)
Fixpoint dict_append (d : dict) (k : text) (v : Q) : dict :=
  match d with
  | [] => [(k, [v])]
  | (k', vs) :: d' =>
      if text_eqb k' k
      then (k', vs ++ [v]) :: d'
      else (k', vs) :: dict_append d' k v
  end.

(** Local variables of [count_url]. *)
Record totals : Type := mkTotals {
  parsed_lines : Q;
  invalid_lines : Q;
  total_requests_time : Q;
  requests_by_url : dict
}.

Definition totals0 : totals := mkTotals 0 0 0 [].

Definition step (acc : totals) (line : option LogLine) : totals :=
  match line with
  | None =>
      mkTotals (parsed_lines acc) (invalid_lines acc + 1)
               (total_requests_time acc) (requests_by_url acc)
  | Some l =>
      mkTotals (parsed_lines acc + 1) (invalid_lines acc)
               (total_requests_time acc + time l)
               (dict_append (requests_by_url acc) (url l) (time l))
  end.

(** The [for line in parse_log(log)] loop. *)
Fixpoint consume (s : stream (option LogLine)) (acc : totals)
  : result totals :=
  match s with
  | SNil => Ok acc
  | SCons line s' => consume s' (step acc line)
  | SRaise e => Raise e
  end.

Definition budget_msg : string :=
  "Error threshold was exceed. More than 20% of log haven't been parsed correctly.".

Definition count_url (lines : list text) (error_threshold : Q)
  : result (dict * Q) :=
  acc <- consume (parse_log lines) totals0 ;;
  ratio <- py_div (invalid_lines acc) (invalid_lines acc + parsed_lines acc) ;;
  if Qgtb ratio error_threshold
  then Raise (ValueError budget_msg)
  else Ok (requests_by_url acc, total_requests_time acc).

(** The default of the keyword argument. *)
Definition default_error_threshold : Q := 2 # 10.

End Aggregator.

(** ** Statistics Computer: [count_url_stats] *)

Module Stats.
Import Py Aggregator.

Record LogStats : Type := mkLogStats {
  url : text;
  count : nat;
  count_perc : Q;
  time_sum : Q;
  time_perc : Q;
  time_avg : Q;
  time_max : Q;
  time_med : Q
}.

(** Nearest integer, ties to the even one. *)
Definition round_half_even (y : Q) : Z :=
  let f := Qfloor y in
  match Qcompare (y - inject_Z f) (1 # 2) with
  | Lt => f
  | Gt => (f + 1)%Z
  | Eq => if Z.even f then f else (f + 1)%Z
  end.

(** [round(x, ndigits)] before the result is stored as a float: the
    decimal with [ndigits] places nearest to the value of [x], ties to
    even.  [Binary64.round] rounds it to the nearest float. *)
Definition py_round (x : Q) (ndigits : nat) : Q :=
  let scale := (10 ^ Z.of_nat ndigits)%Z in
  round_half_even (x * inject_Z scale) # Z.to_pos scale.

(** [sorted(ds)]: stable, ascending. *)
Fixpoint insert (x : Q) (l : list Q) : list Q :=
  match l with
  | [] => [x]
  | y :: l' => if Qgtb x y then y :: insert x l' else x :: l
  end.

Definition sorted (ds : list Q) : list Q := fold_right insert [] ds.

(** [l[-1]]. *)
Definition last_item (l : list Q) : result Q :=
  match rev l with
  | x :: _ => Ok x
  | [] => Raise IndexError
  end.

(** [statistics.median(ds)]. *)
Definition median (ds : list Q) : result Q :=
  let data := sorted ds in
  let n := List.length data in
  if (n =? 0)%nat then Raise StatisticsError
  else if Nat.odd n then Ok (nth (n / 2) data 0)
  else let i := (n / 2)%nat in
       Ok ((nth (i - 1) data 0 + nth i data 0) / 2).

(** One pass through the body of the [for url in requests_by_url] loop. *)
Definition url_stat (n_urls : nat) (total_requests_time : Q)
           (u : text) (ds : list Q) : result LogStats :=
  let count := List.length ds in
  cp <- py_div (100 * Qnat count) (Qnat n_urls) ;;
  let count_perc := py_round cp 5 in
  let time_sum := py_round (sum ds) 5 in
  tp <- py_div (100 * time_sum) total_requests_time ;;
  let time_perc := py_round tp 5 in
  ta <- py_div time_sum (Qnat count) ;;
  let time_avg := py_round ta 5 in
  time_max <- last_item (sorted ds) ;;
  tm <- median ds ;;
  let time_med := py_round tm 5 in
  Ok (mkLogStats u count count_perc time_sum time_perc time_avg
                 time_max time_med).

(** The loop, appending to [url_stats].  Keys being distinct, going through
    the keys and looking each one up is going through the entries. *)
Fixpoint stats_loop (n_urls : nat) (total_requests_time : Q)
         (d : dict) (url_stats : list LogStats) : result (list LogStats) :=
  match d with
  | [] => Ok url_stats
  | (u, ds) :: d' =>
      st <- url_stat n_urls total_requests_time u ds ;;
      stats_loop n_urls total_requests_time d' (url_stats ++ [st])
  end.

(** [sorted(url_stats, key=attrgetter("time_sum"), reverse=True)]:
    descending and stable. *)
Fixpoint insert_desc (x : LogStats) (l : list LogStats) : list LogStats :=
  match l with
  | [] => [x]
  | y :: l' =>
      if Qgtb (time_sum y) (time_sum x)
      then y :: insert_desc x l'
      else x :: l
  end.

Definition sorted_desc (l : list LogStats) : list LogStats :=
  fold_right insert_desc [] l.

Definition count_url_stats (requests_by_url : dict)
           (total_requests_time : Q) : result (list LogStats) :=
  url_stats <- stats_loop (List.length requests_by_url)
                          total_requests_time requests_by_url [] ;;
  Ok (sorted_desc url_stats).

End Stats.

(** ** Report Writer: [write_report]

    The file system is a map from paths to contents; every call that
    changes it is recorded with the state it leaves behind, so the trace
    lists what another process can see at [report_path] over time. *)

Module Writer.
Import Py.

Definition fs : Type := text -> option text.

Definition fs_set (d : fs) (p : text) (v : option text) : fs :=
  fun q => if text_eqb q p then v else d q.

Inductive fs_op : Type :=
| Creat (p : text)               (* create, or truncate to length 0 *)
| Append (p : text) (data : text)  (* bytes reach the file *)
| Rename (src dst : text)        (* [os.rename], [shutil.move] *)
| Unlink (p : text).

Definition apply_op (op : fs_op) (d : fs) : fs :=
  match op with
  | Creat p => fs_set d p (Some [])
  | Append p data =>
      fs_set d p (Some (match d p with Some c => c | None => [] end ++ data))
  | Rename src dst => fs_set (fs_set d dst (d src)) src None
  | Unlink p => fs_set d p None
  end.

Record world : Type := mkWorld {
  disk : fs;
  trace : list (fs_op * fs)
}.

Definition emit (op : fs_op) (w : world) : world :=
  let d := apply_op op (disk w) in
  mkWorld d (trace w ++ [(op, d)]).

Section Write.
(** Size of the buffer of a file object opened by [open(_, 'wb')], and
    the name chosen by [tempfile.NamedTemporaryFile()]. *)
Variable buffer_size : nat.
Variable tmp_name : text.

(** [f.write(data)] on a buffered binary file whose buffer holds [buf]:
    data that fits stays in the buffer, otherwise buffer and data are
    written out. *)
Definition buffered_write (buf data : text) (p : text) (w : world)
  : text * world :=
  if (List.length buf + List.length data <=? buffer_size)%nat
  then ((buf ++ data)%list, w)
  else ([], emit (Append p (buf ++ data)) w).

(** [f.close()]: what is left in the buffer is written out. *)
Definition close (buf : text) (p : text) (w : world) : world :=
  match buf with
  | [] => w
  | _ => emit (Append p buf) w
  end.

(** [write_report(rendered_template, report_path)], with [data] the
    UTF-8 encoding of [rendered_template]. *)
Definition write_report (data : text) (report_path : text)
           (w0 : world) : world :=
  (* tmp = tempfile.NamedTemporaryFile() *)
  let w := emit (Creat tmp_name) w0 in
  (* with open(tmp.name, 'wb') as f: *)
  let w := emit (Creat tmp_name) w in
  (*     f.write(rendered_template.encode("utf-8")) *)
  let '(buf_tmp, w) := buffered_write [] data tmp_name w in
  (*     with open(report_path, 'wb') as f: *)
  let w := emit (Creat report_path) w in
  (*         shutil.copyfileobj(tmp, f): read [tmp] to its end *)
  let copied := match disk w tmp_name with Some c => c | None => [] end in
  let '(buf_rep, w) := buffered_write [] copied report_path w in
  (*     leaving the inner [with] closes the report file *)
  let w := close buf_rep report_path w in
  (* leaving the outer [with] closes the first file object *)
  let w := close buf_tmp tmp_name w in
  (* [tmp] is released: the temporary file is closed and deleted *)
  emit (Unlink tmp_name) w.
End Write.

Definition empty_fs : fs := fun _ => None.
Definition world0 : world := mkWorld empty_fs [].

Definition is_rename (op : fs_op) : bool :=
  match op with Rename _ _ => true | _ => false end.

End Writer.

(** ** Configuration: [update_config] *)

Module Config.
Import Py.

(** The values of the configuration dicts of the script. *)
Inductive value : Type :=
| VInt (n : Z)
| VStr (s : text).

(** A dict with string keys, in insertion order. *)
Definition config : Type := list (text * value).

(** [c[k]] read through [k in c]: the value bound to [k], if any. *)
Fixpoint cfg_get (c : config) (k : text) : option value :=
  match c with
  | [] => None
  | (k', v) :: c' => if text_eqb k' k then Some v else cfg_get c' k
  end.

(** [c[k] = v]: an existing key keeps its place, a new key goes last. *)
Fixpoint cfg_set (c : config) (k : text) (v : value) : config :=
  match c with
  | [] => [(k, v)]
  | (k', v') :: c' =>
      if text_eqb k' k then (k', v) :: c' else (k', v') :: cfg_set c' k v
  end.

(** The dict display [{**a, **b}]: a new dict that receives the items of
    [a], then those of [b]. *)
Definition merge (a b : config) : config :=
  fold_left (fun acc kv => cfg_set acc (fst kv) (snd kv)) (a ++ b) [].

Definition DEFAULT_CONFIG : config :=
  [ (str "REPORT_SIZE", VInt 1000);
    (str "REPORT_DIR", VStr (str "./reports/"));
    (str "LOG_DIR", VStr (str "./log/")) ].

(** [update_config(config_path, config)]; [config_fromfile] is the outcome
    of [load_source('config', config_path).config]. *)
Definition update_config (config_fromfile : result config) (cfg : config)
  : result config :=
  c <- config_fromfile ;; Ok (merge cfg c).

End Config.

(** ** Report Renderer: [render_template] *)

Module Template.
Import Py.

Definition dollar : ascii := ascii_of_nat 36.

(** [[_a-z]] and [[_a-z0-9]] under [re.IGNORECASE], ASCII only. *)
Definition is_id_start (c : ascii) : bool :=
  let n := nat_of_ascii c in
  (n =? 95) || ((65 <=? n) && (n <=? 90)) || ((97 <=? n) && (n <=? 122)).

Definition is_id_char (c : ascii) : bool := is_id_start c || is_digit c.

(** Longest prefix of identifier characters. *)
Fixpoint span_id (s : text) : text * text :=
  match s with
  | c :: s' =>
      if is_id_char c
      then let (a, b) := span_id s' in (c :: a, b)
      else ([], s)
  | [] => ([], [])
  end.

(** What follows a [$], in the order of the alternatives of the pattern of
    [string.Template]: [$$], [$identifier], [${identifier}], and anything
    else. *)
Inductive placeholder : Type :=
| Escaped
| Named (name : text)
| Braced (name : text)
| Invalid.

Definition classify (s : text) : placeholder :=
  match s with
  | c :: s' =>
      if Ascii.eqb c dollar then Escaped
      else if is_id_start c then Named (fst (span_id s))
      else if Ascii.eqb c "{"
      then match s' with
           | c' :: _ =>
               if is_id_start c'
               then match span_id s' with
                    | (name, close :: _) =>
                        if Ascii.eqb close "}" then Braced name else Invalid
                    | (_, []) => Invalid
                    end
               else Invalid
           | [] => Invalid
           end
      else Invalid
  | [] => Invalid
  end.

(** [Template(s).safe_substitute(table_json=value)].  [skip] counts the
    characters of the placeholder being replaced that are still to be
    passed over. *)
Fixpoint substitute (value : text) (skip : nat) (s : text) : text :=
  match s with
  | [] => []
  | c :: s' =>
      match skip with
      | S n => substitute value n s'
      | O =>
          if Ascii.eqb c dollar
          then match classify s' with
               | Escaped => dollar :: substitute value 1 s'
               | Named name =>
                   if text_eqb name (str "table_json")
                   then (value ++ substitute value (List.length name) s')%list
                   else dollar :: substitute value 0 s'
               | Braced name =>
                   if text_eqb name (str "table_json")
                   then (value
                         ++ substitute value (List.length name + 2) s')%list
                   else dollar :: substitute value 0 s'
               | Invalid => dollar :: substitute value 0 s'
               end
          else c :: substitute value 0 s'
      end
  end.

Definition safe_substitute (value : text) (template : text) : text :=
  substitute value 0 template.

Section Render.
(** [json.dumps] of the list of records, and the outcome of reading and
    decoding the file [TEMPLATE]. *)
Variable json_dumps : list Stats.LogStats -> text.
Variable template_file : result text.

Definition render_template (url_stats : list Stats.LogStats) : result text :=
  template <- template_file ;;
  Ok (safe_substitute (json_dumps url_stats) template).
End Render.

End Template.

(** ** The run: [main] *)

Module Main.
Import Py Locator.

Definition digit_char (v : Z) : ascii := ascii_of_nat (Z.to_nat (48 + v)).

(** [%m] and [%d]: two digits. *)
Definition pad2 (n : Z) : text :=
  [digit_char (n / 10); digit_char (n mod 10)].

(** [%Y] for a year of [datetime] (1 to 9999): the decimal digits of the
    year, not padded. *)
Definition year_digits (y : Z) : text :=
  ((if y <? 1000 then [] else [digit_char (y / 1000)])
   ++ (if y <? 100 then [] else [digit_char ((y / 100) mod 10)])
   ++ (if y <? 10 then [] else [digit_char ((y / 10) mod 10)])
   ++ [digit_char (y mod 10)])%Z%list.

(** [log.date.strftime("report-%Y.%m.%d.html")]. *)
Definition report_filename (d : datetime) : text :=
  (str "report-" ++ year_digits (year d) ++ str "."
     ++ pad2 (month d) ++ str "." ++ pad2 (day d) ++ str ".html")%list.

(** The first two calls of the branch of [main] that builds a report:
    [count_url(log)] with the default threshold, then
    [count_url_stats(dict_url, time_all)]. *)
Definition analyze (lines : list text) : result (list Stats.LogStats) :=
  r <- Aggregator.count_url lines Aggregator.default_error_threshold ;;
  Stats.count_url_stats (fst r) (snd r).

End Main.

(** ** Binary64 arithmetic

    A Python float is an IEEE 754 binary64 number.  A finite float is
    modelled by the rational it denotes; every operation computes the exact
    rational result and rounds it to the nearest binary64 number, ties to
    the even significand, as IEEE 754 prescribes for [+], [*], [/] and as
    CPython does for [float(str)], [int / int] and [round(x, n)].  Infinities
    and NaN are outside the model: they need a magnitude above 2^1024, which
    a duration field reaches with more than 300 digits only. *)

Module Binary64.
Import Py Parser Aggregator Stats.

(** [floor (log2 a)] for a positive rational: the binade of [a]. *)
Definition ilog2 (a : Q) : Z :=
  let k := (Z.log2 (Qnum a) - Z.log2 (Zpos (Qden a)))%Z in
  if Qle_bool (2 ^ k) a then k else (k - 1)%Z.

(** Round to the nearest binary64 number, ties to even: 53 significant
    bits in the binade of [q]; below 2^-1022 the spacing stays at 2^-1074
    (subnormal numbers).  That the result is a binary64 number and that
    none is nearer to [q] is proved below ([RN_binary64], [RN_nearest]). *)
Definition RN (q : Q) : Q :=
  let q := Qred q in
  if Qeq_bool q 0 then 0
  else
    let a := Qabs q in
    let e := Z.max (ilog2 a - 52) (-1074) in
    let m := round_half_even (a / 2 ^ e) in
    let r := inject_Z m * 2 ^ e in
    Qred (if Qle_bool 0 q then r else - r).

(** [a + b], [a * b] and [a / b] on floats. *)
Definition fadd (a b : Q) : Q := RN (a + b).

Definition fmul (a b : Q) : Q := RN (a * b).

Definition fdiv (a b : Q) : result Q :=
  if Qeq_bool b 0 then Raise ZeroDivisionError else Ok (RN (a / b)).

(** [float(n)] and [a / b] on ints: the quotient of the integers, rounded
    once. *)
Definition float_of_int (n : Z) : Q := RN (inject_Z n).

Definition int_truediv (a b : Z) : result Q :=
  if (b =? 0)%Z then Raise ZeroDivisionError
  else Ok (RN (inject_Z a / inject_Z b)).

(** [round(x, ndigits)] on a float: the decimal with [ndigits] places
    nearest to the value of [x], ties to even, converted back to a float. *)
Definition round (x : Q) (ndigits : nat) : Q := RN (py_round x ndigits).

(** [float(s)]: the float nearest to the decimal that [s] writes. *)
Definition float (s : text) : result Q :=
  x <- py_float s ;; Ok (RN x).

(** [sum(ds)]: the floats are added one by one from the left, starting
    from 0.  (The script imports [imp], so it runs on Python below 3.12,
    where [sum] does not compensate rounding errors.) *)
Definition sum (ds : list Q) : Q := fold_left fadd ds 0.

(** *** [parse_log]

    The loop body of [Parser.parse_line], with the duration rounded to a
    float. *)

Definition parse_line (url_var : option text) (line : text)
  : result (option LogLine * option text) :=
  match Regex.search LOG_FORMAT_PATTERN line with
  | Some [g1; g2] =>
      let url_var' := match split g1 with
                      | [_; u; _] => Some u
                      | _ => url_var
                      end in
      request_time <- float g2 ;;
      match url_var' with
      | Some u => Ok (Some (mkLogLine u request_time), url_var')
      | None => Raise (UnboundLocalError "url")
      end
  | _ => Ok (None, url_var)
  end.

Fixpoint parse_lines (url_var : option text) (lines : list text)
  : stream (option LogLine) :=
  match lines with
  | [] => SNil
  | line :: rest =>
      match parse_line url_var line with
      | Ok (item, url_var') => SCons item (parse_lines url_var' rest)
      | Raise e => SRaise e
      end
  end.

Definition parse_log (lines : list text) : stream (option LogLine) :=
  parse_lines None lines.

(** *** [count_url]

    The loop adds each duration to the running total as it comes, in the
    order of the log.  The two counters are floats as well ([0.0], then
    [+= 1]). *)

Definition step (acc : totals) (line : option LogLine) : totals :=
  match line with
  | None =>
      mkTotals (parsed_lines acc) (fadd (invalid_lines acc) 1)
               (total_requests_time acc) (requests_by_url acc)
  | Some l =>
      mkTotals (fadd (parsed_lines acc) 1) (invalid_lines acc)
               (fadd (total_requests_time acc) (Parser.time l))
               (dict_append (requests_by_url acc) (Parser.url l)
                            (Parser.time l))
  end.

Fixpoint consume (s : stream (option LogLine)) (acc : totals)
  : result totals :=
  match s with
  | SNil => Ok acc
  | SCons line s' => consume s' (step acc line)
  | SRaise e => Raise e
  end.

Definition count_url (lines : list text) (error_threshold : Q)
  : result (dict * Q) :=
  acc <- consume (parse_log lines) totals0 ;;
  ratio <- fdiv (invalid_lines acc)
                (fadd (invalid_lines acc) (parsed_lines acc)) ;;
  if Qgtb ratio error_threshold
  then Raise (ValueError budget_msg)
  else Ok (requests_by_url acc, total_requests_time acc).

(** The default [error_threshold=0.2]: the float nearest to 0.2. *)
Definition default_error_threshold : Q := RN (2 # 10).

(** *** [count_url_stats]

    [100 * count / len(requests_by_url)] divides two ints,
    [100 * time_sum / total_requests_time] multiplies and divides floats,
    [time_sum / count] divides a float by an int converted to a float. *)

(** [statistics.median(ds)]: the middle element of the sorted data, or the
    float mean of the two middle elements. *)
Definition median (ds : list Q) : result Q :=
  let data := sorted ds in
  let n := List.length data in
  if (n =? 0)%nat then Raise StatisticsError
  else if Nat.odd n then Ok (nth (n / 2) data 0)
  else let i := (n / 2)%nat in
       Ok (RN (fadd (nth (i - 1) data 0) (nth i data 0) / 2)).

Definition url_stat (n_urls : nat) (total_requests_time : Q)
           (u : text) (ds : list Q) : result LogStats :=
  let count := List.length ds in
  cp <- int_truediv (100 * Z.of_nat count) (Z.of_nat n_urls) ;;
  let count_perc := round cp 5 in
  let time_sum := round (sum ds) 5 in
  tp <- fdiv (fmul 100 time_sum) total_requests_time ;;
  let time_perc := round tp 5 in
  ta <- fdiv time_sum (float_of_int (Z.of_nat count)) ;;
  let time_avg := round ta 5 in
  time_max <- last_item (sorted ds) ;;
  tm <- median ds ;;
  let time_med := round tm 5 in
  Ok (mkLogStats u count count_perc time_sum time_perc time_avg
                 time_max time_med).

Fixpoint stats_loop (n_urls : nat) (total_requests_time : Q)
         (d : dict) (url_stats : list LogStats) : result (list LogStats) :=
  match d with
  | [] => Ok url_stats
  | (u, ds) :: d' =>
      st <- url_stat n_urls total_requests_time u ds ;;
      stats_loop n_urls total_requests_time d' (url_stats ++ [st])
  end.

Definition count_url_stats (requests_by_url : dict)
           (total_requests_time : Q) : result (list LogStats) :=
  url_stats <- stats_loop (List.length requests_by_url)
                          total_requests_time requests_by_url [] ;;
  Ok (sorted_desc url_stats).

End Binary64.

(** * Sample inputs and vocabulary *)

Module Samples.
Import Py.

Definition log_20170629 : text := str "nginx-access-ui.log-20170629.gz".
Definition log_20170630 : text := str "nginx-access-ui.log-20170630.gz".
(** Eight digits that name no calendar day (month 13). *)
Definition log_bad_date : text := str "nginx-access-ui.log-20171301.gz".
Definition other_file : text := str "notes.txt".

Definition quoted (s : text) : text := (dquote :: s ++ [dquote])%list.

Definition access_line (request tail : string) : text :=
  (str "1.1.1.1 - [29/Jun/2017:03:50:22 +0300] "
     ++ quoted (str request) ++ str tail)%list.

Definition line_ok : text :=
  access_line "GET /api/v2/banner/1 HTTP/1.1" " 200 927 0.390".
(** The quoted request has two tokens only. *)
Definition line_two_tokens : text :=
  access_line "GET /api/1/photo" " 200 12 1.500".
(** The duration field matches [\d+.\d+] but is no number. *)
Definition line_bad_float : text :=
  access_line "GET /api/v2/banner/1 HTTP/1.1" " 200 927 0x390".
Definition line_zero_time : text :=
  access_line "GET /index.html HTTP/1.1" " 200 927 0.000".
Definition line_junk : text := str "junk".

Definition report_path : text := str "reports/report-2017.06.30.html".
Definition tmp_path : text := str "/tmp/tmpk3x9".
Definition html : text := str "<html></html>".

(** One unparsable line among five: exactly the default threshold. *)
Definition boundary_log : list text :=
  [line_junk; line_ok; line_ok; line_ok; line_ok].


(** Four requests of one URL, lasting 1.0, 2.0, 3.0 and 4.0 seconds. *)
Definition line_index (duration : string) : text :=
  (access_line "GET /index.html HTTP/1.1" " 200 927 " ++ str duration)%list.

Definition log_1234 : list text :=
  [line_index "1.0"; line_index "2.0"; line_index "3.0"; line_index "4.0"].

Definition one_url : Aggregator.dict := [(str "/index.html", [1; 2; 3; 4])].

Definition two_urls : Aggregator.dict :=
  [(str "/five", [5]); (str "/ten", [10])].

Definition three_urls : Aggregator.dict :=
  [(str "/a", [1]); (str "/b", [1]); (str "/c", [1])].
End Samples.

(** ** Sample inputs on floats *)

Module FloatSamples.
Import Py Samples.

Definition line_url (u duration : string) : text :=
  (access_line ("GET " ++ u ++ " HTTP/1.1") " 200 927 " ++ str duration)%list.

(** Three requests of two URLs, lasting 0.1, 0.1 and 0.4 seconds. *)
Definition log_aba : list text :=
  [line_url "/a" "0.100"; line_url "/b" "0.100"; line_url "/a" "0.400"].

Definition aba_dict : Aggregator.dict :=
  [(str "/a", [Binary64.RN (1 # 10); Binary64.RN (4 # 10)]);
   (str "/b", [Binary64.RN (1 # 10)])].

End FloatSamples.

(** ** Vocabulary of the statements *)

(** Numbers of unparsed and parsed items of a stream, the number of
    durations recorded in a dict, and their total. *)
Definition count_invalid (its : list (option Parser.LogLine)) : nat :=
  List.length
    (filter (fun i => match i with None => true | Some _ => false end) its).

Definition count_parsed (its : list (option Parser.LogLine)) : nat :=
  List.length
    (filter (fun i => match i with None => false | Some _ => true end) its).

Definition dict_count (d : Aggregator.dict) : nat :=
  fold_right (fun kv n => (List.length (snd kv) + n)%nat) 0%nat d.

Definition dict_total (d : Aggregator.dict) : Q :=
  fold_right (fun kv acc => Py.sum (snd kv) + acc) 0 d.

(** The order of the returned list: each record's [time_sum] is at least
    the next one's. *)
Definition desc_time_sum (a b : Stats.LogStats) : Prop :=
  Stats.time_sum b <= Stats.time_sum a.

(** [m] is a largest element of [ds]. *)
Definition is_max (m : Q) (ds : list Q) : Prop :=
  In m ds /\ forall x, In x ds -> x <= m.

(** The reading of the [count_perc] formula without rounding. *)
Definition count_perc_exact (d : Aggregator.dict) (t : Q) : Prop :=
  exists l, Stats.count_url_stats d t = Py.Ok l
    /\ forall u ds, In (u, ds) d ->
       exists s, In s l /\ Stats.url s = u
         /\ Stats.count_perc s
            == 100 * Py.Qnat (List.length ds) / Py.Qnat (List.length d).

(** [d[k]] on a dict of duration lists. *)
Fixpoint dict_get (d : Aggregator.dict) (k : Py.text) : option (list Q) :=
  match d with
  | [] => None
  | (k', vs) :: d' => if Py.text_eqb k' k then Some vs else dict_get d' k
  end.

(** The durations of the parsed items of a stream that carry URL [u], in
    stream order. *)
Fixpoint times_of (u : Py.text) (its : list (option Parser.LogLine)) : list Q :=
  match its with
  | [] => []
  | None :: its' => times_of u its'
  | Some l :: its' =>
      if Py.text_eqb (Parser.url l) u
      then Parser.time l :: times_of u its'
      else times_of u its'
  end.


(** The sum of the [count] fields of a list of records. *)
Definition total_count (l : list Stats.LogStats) : nat :=
  fold_right (fun s n => (Stats.count s + n)%nat) 0%nat l.


(** A text without the character [c]. *)
Definition free_of (c : ascii) (s : Py.text) : Prop :=
  forallb (fun x => negb (Ascii.eqb x c)) s = true.

(** The values a stream yields before it ends, and the exception that ends
    it, if any. *)
Fixpoint yields {A} (s : Parser.stream A) : list A :=
  match s with
  | Parser.SNil => []
  | Parser.SCons a s' => a :: yields s'
  | Parser.SRaise _ => []
  end.

Fixpoint stream_error {A} (s : Parser.stream A) : option Py.exn :=
  match s with
  | Parser.SNil => None
  | Parser.SCons _ s' => stream_error s'
  | Parser.SRaise e => Some e
  end.

(** A non-empty text without white space: a token of [str.split]. *)
Definition is_token (s : Py.text) : Prop :=
  s <> [] /\ forallb (fun c => negb (Py.is_space c)) s = true.

(** [d[k]] on a [defaultdict(list)] without inserting: the list bound to
    [k], empty when there is none. *)
Definition dict_get_list (d : Aggregator.dict) (k : Py.text) : list Q :=
  match dict_get d k with Some vs => vs | None => [] end.

(** The binding of the local name [url] of [parse_log]: unbound, or a
    token. *)
Definition url_ok (url_var : option Py.text) : Prop :=
  match url_var with None => True | Some u => is_token u end.

(** The entries of a dict of durations are well formed: the key is a
    token, the list is not empty and holds no negative duration. *)
Definition durations_ok (d : Aggregator.dict) : Prop :=
  forall u ds, In (u, ds) d ->
    is_token u /\ ds <> [] /\ forall x, In x ds -> 0 <= x.

(** A text that does not continue an identifier. *)
Definition no_id_start (s : Py.text) : Prop :=
  match s with [] => True | c :: _ => Template.is_id_char c = false end.

(** [f] is a finite binary64 number: an integer significand of at most 53
    bits at an exponent no lower than -1074.  (No upper bound on the
    exponent: overflow is outside the model.) *)
Definition is_binary64 (f : Q) : Prop :=
  exists m e : Z,
    (Z.abs m <= 2 ^ 53)%Z /\ (-1074 <= e)%Z /\ f == inject_Z m * 2 ^ e.

(** The durations of the parsed items of a stream, in stream order. *)
Definition parsed_times (its : list (option Parser.LogLine)) : list Q :=
  flat_map (fun i => match i with Some l => [Parser.time l] | None => [] end)
           its.

(** All the durations recorded in a dict, URL after URL. *)
Definition recorded (d : Aggregator.dict) : list Q := flat_map snd d.

(** The invariant that the returned [total_requests_time] is the sum of
    all recorded durations across all URLs, in any of its readings: the
    recorded durations added as floats in the order of the map, the float
    sum of the per-URL float sums, or the sum of their exact values. *)
Definition total_is_recorded_sum (lines : list Py.text) (thr : Q) : Prop :=
  forall d t,
    Binary64.count_url lines thr = Py.Ok (d, t) ->
    t == Binary64.sum (recorded d)
    \/ t == Binary64.sum (map (fun kv => Binary64.sum (snd kv)) d)
    \/ t == dict_total d.

(** [r] is [x] rounded to [n] decimal digits: the float nearest to the
    decimal [k / 10^n] that is nearest to [x], the even [k] when two are
    equally near. *)
Definition rounded_to (n : nat) (x r : Q) : Prop :=
  exists k : Z,
    Qabs (x * inject_Z (10 ^ Z.of_nat n) - inject_Z k) <= 1 # 2
    /\ (Qabs (x * inject_Z (10 ^ Z.of_nat n) - inject_Z k) == 1 # 2 ->
        Z.even k = true)
    /\ r = Binary64.RN (inject_Z k / inject_Z (10 ^ Z.of_nat n)).

(** The quotient of two floats, as a float. *)
Definition fquot (a b : Q) : Q := Binary64.RN (a / b).

(** [m] is the median of [ds]: the middle element of [ds] put in order, or
    the float mean of its two middle elements. *)
Definition is_median (m : Q) (ds : list Q) : Prop :=
  exists s : list Q,
    Permutation s ds /\ Sorted Qle s /\ s <> []
    /\ m = let i := (List.length s / 2)%nat in
           if Nat.odd (List.length s) then nth i s 0
           else fquot (Binary64.fadd (nth (i - 1) s 0) (nth i s 0)) 2.

(** * Properties *)

(** ** Log Locator *)

Section LocatorProperties.
Import Py Locator Samples.

Variable abspath_join : text -> text -> text.
Variable directory : text.

(** An empty directory yields Python's [None]; a missing one exits. *)
Lemma find_most_recent_log_empty :
  find_most_recent_log abspath_join directory (Some []) = Ok None.
Proof. reflexivity. Qed.

Lemma find_most_recent_log_no_directory :
  find_most_recent_log abspath_join directory None = Raise (SystemExit (-1)).
Proof. reflexivity. Qed.

(** Only the first entry of the listing is ever looked at. *)
Lemma find_most_recent_log_first_only (file : text) (rest rest' : list text) :
  find_most_recent_log abspath_join directory (Some (file :: rest))
  = find_most_recent_log abspath_join directory (Some (file :: rest')).
Proof. reflexivity. Qed.

(** C1 (code evaluated at the failing input): with the older log listed
    first, [find_most_recent_log] returns that older log although a log
    with a later date is in the directory; and a listing that starts with
    a file outside the naming pattern raises [AttributeError] instead of
    being passed over. *)
Theorem find_most_recent_log_returns_first_entry :
  find_most_recent_log abspath_join directory
    (Some [log_20170629; log_20170630])
  = Ok (Some (mkLogFile (abspath_join directory log_20170629)
                        (mkDate 2017 6 29) (str "gz")))
  /\ find_most_recent_log abspath_join directory
       (Some [other_file; log_20170630]) = Raise AttributeError
  /\ find_most_recent_log abspath_join directory (Some [other_file])
     = Raise AttributeError.
Proof. repeat split; vm_compute; reflexivity. Qed.

(** C7 (code evaluated at the failing input): a file whose eight digits
    are not a calendar date makes the scan raise [UnboundLocalError] at
    the comparison that follows the [except] clause, whatever else the
    directory holds. *)
Theorem find_most_recent_log_bad_date_raises :
  strptime (str "20171301")
  = Raise (ValueError "strptime")
  /\ forall rest : list text,
      find_most_recent_log abspath_join directory (Some (log_bad_date :: rest))
      = Raise (UnboundLocalError "parsed_date").
Proof. split; [ | intros rest ]; vm_compute; reflexivity. Qed.

End LocatorProperties.

(** ** Line Parser *)

Section ParserProperties.
Import Py Parser Samples.

(** A line outside the access-log shape yields [None] and leaves the
    binding of [url] alone. *)
Lemma parse_line_mismatch (url_var : option text) (line : text) :
  Regex.search LOG_FORMAT_PATTERN line = None ->
  parse_line url_var line = Ok (None, url_var).
Proof. intros H. unfold parse_line. rewrite H. reflexivity. Qed.

(** C4 (code evaluated at the failing inputs): a line that matches the
    pattern but whose quoted request has two tokens makes the generator
    raise [UnboundLocalError] when it is the first matching line; after a
    well-formed line it is yielded as a parsed line carrying the URL of
    that earlier line; and a duration field that [float] rejects raises
    [ValueError]. *)
Theorem parse_log_two_token_request :
  parse_log [line_two_tokens] = SRaise (UnboundLocalError "url")
  /\ parse_log [line_ok; line_two_tokens]
     = SCons (Some (mkLogLine (str "/api/v2/banner/1") (390 # 1000)))
         (SCons (Some (mkLogLine (str "/api/v2/banner/1") (1500 # 1000)))
            SNil)
  /\ parse_log [line_bad_float]
     = SRaise (ValueError "could not convert string to float").
Proof. repeat split; vm_compute; reflexivity. Qed.

End ParserProperties.

(** ** Aggregator *)

Section AggregatorProperties.
Import Py Parser Aggregator Samples.
Local Open Scope Q_scope.

Lemma Qnat_S (n : nat) : Qnat (S n) == Qnat n + 1.
Proof.
  unfold Qnat. rewrite Nat2Z.inj_succ. unfold Z.succ.
  rewrite inject_Z_plus. reflexivity.
Qed.

Lemma text_eqb_eq (a b : text) : text_eqb a b = true <-> a = b.
Proof.
  revert b. induction a as [|x a IH]; intros [|y b]; simpl;
    try (split; intros; congruence).
  rewrite andb_true_iff, Ascii.eqb_eq, IH.
  split; [intros [-> ->]; reflexivity | intros H; inversion H; auto].
Qed.



Lemma dict_count_append (d : dict) (k : text) (v : Q) :
  dict_count (dict_append d k v) = S (dict_count d).
Proof.
  induction d as [|[k' vs] d IH]; simpl; [reflexivity|].
  destruct (text_eqb k' k); simpl.
  - rewrite length_app. simpl. lia.
  - rewrite IH. lia.
Qed.

Lemma dict_append_keys (d : dict) (k : text) (v : Q) (x : text) :
  In x (map fst (dict_append d k v)) -> x = k \/ In x (map fst d).
Proof.
  induction d as [|[k' vs] d IH]; simpl.
  - intros [H|[]]; auto.
  - destruct (text_eqb k' k); simpl; intros [H|H]; auto.
    destruct (IH H); auto.
Qed.

Lemma dict_append_nodup (d : dict) (k : text) (v : Q) :
  NoDup (map fst d) -> NoDup (map fst (dict_append d k v)).
Proof.
  induction d as [|[k' vs] d IH]; simpl; intros H.
  - constructor; [intros [] | constructor].
  - inversion H as [|? ? Hnin Hnd]; subst.
    destruct (text_eqb k' k) eqn:E; simpl.
    + constructor; assumption.
    + constructor; [ | apply IH; assumption ].
      intros Hin. apply dict_append_keys in Hin. destruct Hin as [->|Hin].
      * assert (text_eqb k k = true) by (apply text_eqb_eq; reflexivity).
        congruence.
      * contradiction.
Qed.

(** C5 (code evaluated at the failing input): on a log with no line the
    loop leaves both counters at 0.0 and the ratio [0.0 / 0.0] raises
    [ZeroDivisionError]; no aggregate is returned. *)
Theorem count_url_empty_stream (error_threshold : Q) :
  parse_log [] = SNil
  /\ count_url [] error_threshold = Raise ZeroDivisionError.
Proof. split; reflexivity. Qed.



End AggregatorProperties.

(** ** Statistics Computer *)

Section StatsProperties.
Import Py Aggregator Stats Samples.
Local Open Scope Q_scope.

Lemma Qgtb_true (a b : Q) : Qgtb a b = true -> b < a.
Proof.
  unfold Qgtb. intros H. apply Qnot_le_lt. intros L.
  apply Qle_bool_iff in L. rewrite L in H. discriminate.
Qed.

Lemma Qgtb_false (a b : Q) : Qgtb a b = false -> a <= b.
Proof.
  unfold Qgtb. intros H. apply Qle_bool_iff.
  destruct (Qle_bool a b); [ reflexivity | discriminate ].
Qed.

(** *** Rounding *)

Lemma round_half_even_near (y : Q) :
  Qabs (y - inject_Z (round_half_even y)) <= 1 # 2.
Proof.
  unfold round_half_even.
  pose proof (Qfloor_le y) as Hl. pose proof (Qlt_floor y) as Hu.
  set (f := Qfloor y) in *.
  rewrite inject_Z_plus in Hu. change (inject_Z 1) with 1 in Hu.
  apply Qabs_Qle_condition.
  destruct (Qcompare_spec (y - inject_Z f) (1 # 2)) as [E|L|G].
  - destruct (Z.even f);
      [ | rewrite inject_Z_plus; change (inject_Z 1) with 1 ]; split; lra.
  - split; lra.
  - rewrite inject_Z_plus. change (inject_Z 1) with 1. split; lra.
Qed.

(** *** The two sorts *)

Lemma insert_desc_perm (x : LogStats) (l : list LogStats) :
  Permutation (insert_desc x l) (x :: l).
Proof.
  induction l as [|y l IH]; simpl; [ reflexivity | ].
  destruct (Qgtb (time_sum y) (time_sum x)); [ | reflexivity ].
  rewrite IH. apply perm_swap.
Qed.

Lemma sorted_desc_perm (l : list LogStats) : Permutation (sorted_desc l) l.
Proof.
  induction l as [|x l IH]; simpl; [ constructor | ].
  rewrite insert_desc_perm. constructor. exact IH.
Qed.

Lemma insert_desc_hd (a x : LogStats) (l : list LogStats) :
  desc_time_sum a x -> HdRel desc_time_sum a l ->
  HdRel desc_time_sum a (insert_desc x l).
Proof.
  intros Hax Hal. destruct l as [|y l]; simpl.
  - constructor. exact Hax.
  - destruct (Qgtb (time_sum y) (time_sum x)); constructor.
    + inversion Hal; assumption.
    + exact Hax.
Qed.

Lemma insert_desc_sorted (x : LogStats) (l : list LogStats) :
  Sorted desc_time_sum l -> Sorted desc_time_sum (insert_desc x l).
Proof.
  induction l as [|y l IH]; simpl; intros Hs.
  - repeat constructor.
  - inversion Hs as [|? ? Hs' Hhd]; subst.
    destruct (Qgtb (time_sum y) (time_sum x)) eqn:E.
    + constructor; [ apply IH; exact Hs' | ].
      apply insert_desc_hd; [ | exact Hhd ].
      unfold desc_time_sum. apply Qlt_le_weak, Qgtb_true, E.
    + constructor; [ exact Hs | ].
      constructor. unfold desc_time_sum. apply Qgtb_false, E.
Qed.

Lemma sorted_desc_sorted (l : list LogStats) :
  Sorted desc_time_sum (sorted_desc l).
Proof.
  induction l as [|x l IH]; simpl; [ constructor | ].
  apply insert_desc_sorted, IH.
Qed.

Lemma insert_perm (x : Q) (l : list Q) : Permutation (insert x l) (x :: l).
Proof.
  induction l as [|y l IH]; simpl; [ reflexivity | ].
  destruct (Qgtb x y); [ | reflexivity ].
  rewrite IH. apply perm_swap.
Qed.

Lemma sorted_perm (ds : list Q) : Permutation (sorted ds) ds.
Proof.
  induction ds as [|x l IH]; simpl; [ constructor | ].
  rewrite insert_perm. constructor. exact IH.
Qed.

Lemma insert_sorted (x : Q) (l : list Q) :
  Sorted Qle l -> Sorted Qle (insert x l).
Proof.
  induction l as [|y l IH]; simpl; intros Hs.
  - repeat constructor.
  - inversion Hs as [|? ? Hs' Hhd]; subst.
    destruct (Qgtb x y) eqn:E.
    + constructor; [ apply IH; exact Hs' | ].
      destruct l as [|z l]; simpl.
      * constructor. apply Qlt_le_weak, Qgtb_true, E.
      * destruct (Qgtb x z); constructor.
        -- inversion Hhd; assumption.
        -- apply Qlt_le_weak, Qgtb_true, E.
    + constructor; [ exact Hs | ].
      constructor. apply Qgtb_false, E.
Qed.

Lemma sorted_sorted (ds : list Q) : Sorted Qle (sorted ds).
Proof.
  induction ds as [|x l IH]; simpl; [ constructor | ].
  apply insert_sorted, IH.
Qed.

Lemma strongly_sorted_last (l : list Q) (m : Q) :
  StronglySorted Qle (l ++ [m]) -> forall x, In x (l ++ [m]) -> x <= m.
Proof.
  induction l as [|a l IH]; simpl; intros Hs x Hin.
  - destruct Hin as [<-|[]]. apply Qle_refl.
  - inversion Hs as [|? ? Hs' Hall]; subst.
    destruct Hin as [<-|Hin].
    + rewrite Forall_forall in Hall. apply Hall.
      apply in_or_app. right. left. reflexivity.
    + apply IH; assumption.
Qed.

(** [sorted(ds)[-1]] is a largest element of [ds]. *)
Lemma last_item_sorted_max (ds : list Q) (m : Q) :
  last_item (sorted ds) = Ok m -> is_max m ds.
Proof.
  unfold last_item. intros H.
  destruct (rev (sorted ds)) as [|x r] eqn:E; [ discriminate | ].
  inversion H; subst x.
  assert (Hl : sorted ds = rev r ++ [m]).
  { rewrite <- (rev_involutive (sorted ds)), E. reflexivity. }
  assert (Hss : StronglySorted Qle (rev r ++ [m])).
  { rewrite <- Hl. apply Sorted_StronglySorted.
    - intros a b c. apply Qle_trans.
    - apply sorted_sorted. }
  split.
  - apply (Permutation_in _ (sorted_perm ds)). rewrite Hl.
    apply in_or_app. right. left. reflexivity.
  - intros x Hx. apply (@strongly_sorted_last (rev r) m Hss x). rewrite <- Hl.
    apply (Permutation_in _ (Permutation_sym (sorted_perm ds))). exact Hx.
Qed.

(** *** The loop *)

Lemma py_div_ok (a b r : Q) : py_div a b = Ok r -> r = a / b /\ ~ b == 0.
Proof.
  unfold py_div. destruct (Qeq_bool b 0) eqn:E; [ discriminate | ].
  intros H. inversion H. split; [ reflexivity | ].
  intros X. apply Qeq_bool_iff in X. congruence.
Qed.

Lemma url_stat_fields (n : nat) (t : Q) (u : text) (ds : list Q)
      (s : LogStats) :
  url_stat n t u ds = Ok s ->
  url s = u /\ count s = List.length ds
  /\ count_perc s = py_round (100 * Qnat (List.length ds) / Qnat n) 5
  /\ time_sum s = py_round (sum ds) 5
  /\ (time_perc s = py_round (100 * time_sum s / t) 5 /\ ~ t == 0)
  /\ time_avg s = py_round (time_sum s / Qnat (count s)) 5
  /\ last_item (sorted ds) = Ok (time_max s)
  /\ exists m, median ds = Ok m /\ time_med s = py_round m 5.
Proof.
  unfold url_stat.
  destruct (py_div (100 * Qnat (List.length ds)) (Qnat n)) as [cp|] eqn:E1;
    simpl; [ | discriminate ].
  destruct (py_div (100 * py_round (sum ds) 5) t) as [tp|] eqn:E2;
    simpl; [ | discriminate ].
  destruct (py_div (py_round (sum ds) 5) (Qnat (List.length ds)))
    as [ta|] eqn:E3; simpl; [ | discriminate ].
  destruct (last_item (sorted ds)) as [mx|] eqn:E4; simpl; [ | discriminate ].
  destruct (median ds) as [md|] eqn:E5; simpl; [ | discriminate ].
  intros H. inversion H; subst s; simpl.
  apply py_div_ok in E1, E2, E3.
  destruct E1 as [-> _], E2 as [-> Ht], E3 as [-> _].
  repeat split; try reflexivity; try assumption.
  exists md. split; reflexivity.
Qed.

Lemma stats_loop_spec (n : nat) (t : Q) (d : dict) :
  forall acc l, stats_loop n t d acc = Ok l ->
  exists l', l = (acc ++ l')%list
    /\ Forall2 (fun kv s => url_stat n t (fst kv) (snd kv) = Ok s) d l'.
Proof.
  induction d as [|[u ds] d IH]; simpl; intros acc l H.
  - inversion H. exists []. rewrite app_nil_r. split; constructor.
  - destruct (url_stat n t u ds) as [st|] eqn:E; simpl in H; [ | discriminate ].
    apply IH in H. destruct H as (l' & -> & HF).
    exists (st :: l'). split.
    + rewrite <- app_assoc. reflexivity.
    + constructor; assumption.
Qed.

Lemma Forall2_in_left {A B} (R : A -> B -> Prop) (xs : list A) (ys : list B) :
  Forall2 R xs ys -> forall x, In x xs -> exists y, In y ys /\ R x y.
Proof.
  induction 1 as [|x0 y0 xs ys HR HF IH]; simpl; intros x Hin;
    [ contradiction | ].
  destruct Hin as [<-|Hin].
  - exists y0. auto.
  - destruct (IH x Hin) as (y & Hy & HRy). exists y. auto.
Qed.

Lemma Forall2_urls (n : nat) (t : Q) (d : dict) (l : list LogStats) :
  Forall2 (fun kv s => url_stat n t (fst kv) (snd kv) = Ok s) d l ->
  map url l = map fst d.
Proof.
  induction 1 as [|kv s d l HR HF IH]; simpl; [ reflexivity | ].
  apply url_stat_fields in HR. destruct HR as [-> _]. rewrite IH. reflexivity.
Qed.

Lemma count_url_stats_inv (d : dict) (t : Q) (l : list LogStats) :
  count_url_stats d t = Ok l ->
  exists l0, l = sorted_desc l0
    /\ Forall2 (fun kv s => url_stat (List.length d) t (fst kv) (snd kv) = Ok s)
               d l0.
Proof.
  unfold count_url_stats. intros H.
  destruct (stats_loop (List.length d) t d []) as [l0|] eqn:E; simpl in H;
    [ | discriminate ].
  inversion H; subst l. exists l0. split; [ reflexivity | ].
  apply stats_loop_spec in E. destruct E as (l' & -> & HF). exact HF.
Qed.

Lemma Qgtb_le (a b : Q) : a <= b -> Qgtb a b = false.
Proof.
  intros H. unfold Qgtb. apply Qle_bool_iff in H. rewrite H. reflexivity.
Qed.

(** Sum, maximum and median of four durations equal to 1, 2, 3 and 4. *)
Lemma durations_1234 (ds : list Q) :
  Forall2 Qeq ds [1; 2; 3; 4] ->
  sum ds == 10
  /\ (forall m, is_max m ds -> m == 4)
  /\ (exists m, median ds = Ok m /\ m == 5 # 2)
  /\ List.length ds = 4%nat.
Proof.
  intros H.
  inversion H as [|a ? ? ? Ha H1]; subst. clear H.
  inversion H1 as [|b ? ? ? Hb H2]; subst. clear H1.
  inversion H2 as [|c ? ? ? Hc H3]; subst. clear H2.
  inversion H3 as [|e ? ? ? He H4]; subst. clear H3.
  inversion H4; subst. clear H4.
  repeat split.
  - unfold sum. simpl. rewrite Ha, Hb, Hc, He. reflexivity.
  - intros m [Hin Hle].
    assert (H4 : 4 <= m) by (rewrite <- He; apply Hle; simpl; auto).
    simpl in Hin. destruct Hin as [E|[E|[E|[E|[]]]]]; subst m.
    + rewrite Ha in H4. vm_compute in H4. exfalso. apply H4. reflexivity.
    + rewrite Hb in H4. vm_compute in H4. exfalso. apply H4. reflexivity.
    + rewrite Hc in H4. vm_compute in H4. exfalso. apply H4. reflexivity.
    + exact He.
  - exists ((b + c) / 2). split.
    + assert (Hs : sorted [a; b; c; e] = [a; b; c; e]).
      { unfold sorted. simpl fold_right.
        change (insert c [e]) with (if Qgtb c e then [e; c] else [c; e]).
        rewrite (@Qgtb_le c e) by (rewrite Hc, He; discriminate).
        change (insert b [c; e])
          with (if Qgtb b c then c :: insert b [e] else [b; c; e]).
        rewrite (@Qgtb_le b c) by (rewrite Hb, Hc; discriminate).
        change (insert a [b; c; e])
          with (if Qgtb a b then b :: insert a [c; e] else [a; b; c; e]).
        rewrite (@Qgtb_le a b) by (rewrite Ha, Hb; discriminate).
        reflexivity. }
      unfold median. rewrite Hs. reflexivity.
    + rewrite Hb, Hc. reflexivity.
Qed.

(** With three URLs of one request each, [count_perc] is 33.33333 and not
    100 / 3. *)
Lemma count_perc_exact_fails : ~ count_perc_exact three_urls 3.
Proof.
  intros (l & H & Hall).
  vm_compute in H. inversion H; subst l. clear H.
  destruct (Hall (str "/a") [1] (or_introl eq_refl)) as (s & Hin & _ & Hcp).
  simpl in Hin.
  destruct Hin as [<-|[<-|[<-|[]]]]; vm_compute in Hcp; discriminate.
Qed.

(** C9: whenever [count_url_stats] returns, each record of the list has a
    [time_sum] at least that of the record after it; so of two records with
    sums 5 and 10 the one with 10 comes first. *)
Theorem count_url_stats_sorted (d : dict) (t : Q) (l : list LogStats)
        (Hret : count_url_stats d t = Ok l) :
  Sorted desc_time_sum l
  /\ (forall a b, l = [a; b] ->
      (time_sum a == 5 /\ time_sum b == 10)
      \/ (time_sum a == 10 /\ time_sum b == 5) ->
      time_sum a == 10 /\ time_sum b == 5).
Proof.
  destruct (count_url_stats_inv _ _ Hret) as (l0 & Hl & _).
  assert (Hs : Sorted desc_time_sum l) by (rewrite Hl; apply sorted_desc_sorted).
  split; [ exact Hs | ].
  intros a b -> [[Ha Hb]|H]; [ exfalso | exact H ].
  inversion Hs as [|? ? _ Hhd]; subst. inversion Hhd as [|? ? Hab]; subst.
  unfold desc_time_sum in Hab. rewrite Ha, Hb in Hab.
  vm_compute in Hab. apply Hab. reflexivity.
Qed.

Lemma count_url_stats_sorted_witness :
  option_map (map url)
    (match count_url_stats two_urls 15 with Ok l => Some l | Raise _ => None end)
  = Some [str "/ten"; str "/five"]
  /\ exists l, count_url_stats two_urls 15 = Ok l /\ Sorted desc_time_sum l.
Proof.
  split; [ vm_compute; reflexivity | ].
  destruct (count_url_stats two_urls 15) as [l|e] eqn:H.
  - exists l. split; [ reflexivity | ].
    exact (proj1 (@count_url_stats_sorted two_urls 15 l H)).
  - vm_compute in H. discriminate.
Defined.

(** The whole pipeline on four requests of one URL. *)
Example pipeline_1234 :
  exists d t s,
    count_url log_1234 default_error_threshold = Ok (d, t)
    /\ count_url_stats d t = Ok [s]
    /\ url s = str "/index.html" /\ count s = 4%nat
    /\ count_perc s == 400 /\ time_sum s == 10 /\ time_perc s == 100
    /\ time_avg s == 5 # 2 /\ time_max s == 4 /\ time_med s == 5 # 2.
Proof.
  do 3 eexists. split; [ vm_compute; reflexivity | ].
  split; [ vm_compute; reflexivity | ].
  repeat split.
Qed.

(** C6 (code evaluated at the failing input): with a zero total the
    division [100 * time_sum / total_requests_time] raises
    [ZeroDivisionError] at the first URL of a non-empty map; a log whose
    requests all took 0.000 seconds reaches this through [count_url]. *)
Theorem count_url_stats_zero_total :
  (forall (u : text) (ds : list Q) (d : dict),
      count_url_stats ((u, ds) :: d) 0 = Raise ZeroDivisionError)
  /\ count_url [line_zero_time] default_error_threshold
     = Ok ([(str "/index.html", [0 # 1000])], 0 + (0 # 1000))
  /\ count_url_stats [(str "/index.html", [0 # 1000])] (0 + (0 # 1000))
     = Raise ZeroDivisionError.
Proof.
  split; [ | split; vm_compute; reflexivity ].
  intros u ds d. unfold count_url_stats. simpl. reflexivity.
Qed.

End StatsProperties.

(** ** Report Writer *)

Section WriterProperties.
Import Py Writer Samples.

(** C10 (code evaluated at the failing input): [write_report] issues no
    rename; it creates (or truncates) the file at [report_path] itself and
    copies into it, so the trace holds a state in which [report_path] exists
    with empty content although the document is not empty.  With a buffer
    that holds the whole document, the copy reads the temporary file before
    the buffered write has reached it, and the report stays empty. *)
Theorem write_report_truncates_in_place :
  (forall buffer_size : nat,
      let w := write_report buffer_size tmp_path html report_path world0 in
      forallb (fun x => negb (is_rename (fst x))) (trace w) = true
      /\ In (Creat report_path) (map fst (trace w))
      /\ exists d, In d (map snd (trace w)) /\ d report_path = Some [])
  /\ disk (write_report (8 * 1024) tmp_path html report_path world0) report_path
     = Some []
  /\ disk (write_report 4 tmp_path html report_path world0) report_path
     = Some html.
Proof.
  split; [ | split; vm_compute; reflexivity ].
  intros buffer_size w. subst w.
  unfold write_report, buffered_write.
  change (List.length (@nil ascii) + List.length html)%nat with 13%nat.
  destruct (13 <=? buffer_size)%nat eqn:E.
  - cbn -[Nat.leb]. change (0 <=? buffer_size)%nat with true. cbn. repeat split.
    + right. right. left. reflexivity.
    + eexists. split; [ right; right; left; reflexivity | reflexivity ].
  - cbn -[Nat.leb]. rewrite E. cbn. repeat split.
    + right. right. right. left. reflexivity.
    + eexists. split; [ right; right; right; left; reflexivity | reflexivity ].
Qed.

End WriterProperties.

(** ** The matcher and the file-name pattern *)

Section RegexProperties.
Import Py Regex Locator.

Lemma lit_spec (R : Type) (t s : text) (caps : list text)
      (k : text -> list text -> option R) (r : R) :
  mt (lit t) s caps k = Some r
  <-> exists post, s = (t ++ post)%list /\ k post caps = Some r.
Proof.
  revert s. induction t as [|a t IH]; intros s; simpl.
  - split; [ intros H; exists s; auto | intros (post & -> & H); exact H ].
  - destruct s as [|x s].
    + split; [ discriminate | intros (post & H & _); discriminate ].
    + destruct (Ascii.eqb x a) eqn:E.
      * apply Ascii.eqb_eq in E. subst x. rewrite IH.
        split; intros (post & H1 & H2); exists post; split; auto.
        -- rewrite H1. reflexivity.
        -- inversion H1. reflexivity.
      * split; [ discriminate | ].
        intros (post & H1 & _). inversion H1; subst.
        rewrite Ascii.eqb_refl in E. discriminate.
Qed.

Lemma rep_spec (R : Type) (p : ascii -> bool) (n : nat) (s : text)
      (k : text -> option R) (r : R) :
  rep p n s k = Some r
  <-> exists pre post, s = (pre ++ post)%list /\ List.length pre = n
        /\ forallb p pre = true /\ k post = Some r.
Proof.
  revert s. induction n as [|n IH]; intros s; simpl.
  - split.
    + intros H. exists [], s. auto.
    + intros (pre & post & -> & Hl & _ & H).
      destruct pre; [ exact H | discriminate ].
  - destruct s as [|x s].
    + split; [ discriminate | ].
      intros (pre & post & H & Hl & _). destruct pre; discriminate.
    + destruct (p x) eqn:E.
      * rewrite IH. split.
        -- intros (pre & post & -> & Hl & Hp & H).
           exists (x :: pre), post. simpl. rewrite E, Hl. auto.
        -- intros (pre & post & H1 & Hl & Hp & H).
           destruct pre as [|y pre]; [ discriminate | ].
           inversion H1; subst. simpl in Hp. rewrite E in Hp.
           exists pre, post. simpl in Hl. auto.
      * split; [ discriminate | ].
        intros (pre & post & H1 & Hl & Hp & _).
        destruct pre as [|y pre]; [ discriminate | ].
        inversion H1; subst. simpl in Hp. rewrite E in Hp. discriminate.
Qed.

Lemma plus_sound (R : Type) (p : ascii -> bool) (s : text)
      (k : text -> option R) (r : R) :
  plus p s k = Some r ->
  exists pre post, s = (pre ++ post)%list /\ pre <> []
    /\ forallb p pre = true /\ k post = Some r.
Proof.
  revert r. induction s as [|x s IH]; intros r; simpl; [ discriminate | ].
  destruct (p x) eqn:E; [ | discriminate ].
  destruct (plus p s k) as [r'|] eqn:Hp.
  - intros H. inversion H; subst r'.
    destruct (IH r eq_refl) as (pre & post & -> & _ & Hall & Hk).
    exists (x :: pre), post. simpl. rewrite E.
    repeat split; auto. discriminate.
  - intros H. exists [x], s. simpl. rewrite E.
    repeat split; auto. discriminate.
Qed.

Lemma captured_prefix (pre post : text) :
  firstn (List.length (pre ++ post) - List.length post) (pre ++ post) = pre.
Proof.
  rewrite length_app, Nat.add_sub. 
  rewrite firstn_app, Nat.sub_diag, firstn_all. simpl. apply app_nil_r.
Qed.

Lemma log_filename_pattern_iff (file d e : text) :
  search LOG_FILENAME_PATTERN file = Some [d; e]
  <-> exists c1 c2 tail,
        file = (str "nginx-access-ui" ++ c1 :: str "log-" ++ d
                  ++ c2 :: e ++ tail)%list
        /\ c1 <> newline /\ c2 <> newline
        /\ List.length d = 8%nat /\ forallb is_digit d = true
        /\ (e = str "gz" \/ e = str "log")
        /\ (tail = [] \/ tail = [newline]).
Proof.
  unfold search, LOG_FILENAME_PATTERN. cbn [cat mt]. split.
  - intros H.
    apply lit_spec in H. destruct H as (p1 & -> & H).
    destruct p1 as [|c1 p1]; [ discriminate | ].
    destruct (cls_ok CAny c1) eqn:Hc1; [ | discriminate ].
    apply lit_spec in H. destruct H as (p2 & -> & H).
    apply rep_spec in H.
    destruct H as (d' & p3 & -> & Hlen & Hdig & H).
    rewrite captured_prefix in H.
    destruct p3 as [|c2 p3]; [ discriminate | ].
    destruct (cls_ok CAny c2) eqn:Hc2; [ | discriminate ].
    assert (Hnl : forall c, cls_ok CAny c = true -> c <> newline).
    { intros c Hc ->. discriminate. }
    assert (Hend : forall (e' tail : text) (caps : list text),
               match tail with
               | [] => Some caps
               | [x] => if Ascii.eqb x newline then Some caps else None
               | _ => None
               end = Some [d; e] ->
               caps = [d; e] /\ (tail = [] \/ tail = [newline])).
    { intros _ tail caps Ht. destruct tail as [|x [|y tail]].
      - inversion Ht. auto.
      - destruct (Ascii.eqb x newline) eqn:Ex; [ | discriminate ].
        apply Ascii.eqb_eq in Ex. subst x. inversion Ht. auto.
      - discriminate. }
    match type of H with
    | match ?m with Some x => Some x | None => _ end = _ =>
        destruct m as [r|] eqn:Hgz
    end.
    + inversion H; subst r. clear H.
      apply lit_spec in Hgz. destruct Hgz as (tail & -> & H).
      rewrite captured_prefix in H.
      destruct (Hend e tail _ H) as [Hc Ht]. inversion Hc; subst.
      exists c1, c2, tail. repeat split; auto.
    + apply lit_spec in H. destruct H as (tail & -> & H).
      rewrite captured_prefix in H.
      destruct (Hend e tail _ H) as [Hc Ht]. inversion Hc; subst.
      exists c1, c2, tail. repeat split; auto.
  - intros (c1 & c2 & tail & -> & Hc1 & Hc2 & Hlen & Hdig & He & Ht).
    assert (Hany : forall c, c <> newline -> cls_ok CAny c = true).
    { intros c Hc. simpl. destruct (Ascii.eqb c newline) eqn:E; auto.
      apply Ascii.eqb_eq in E. contradiction. }
    apply lit_spec. eexists. split; [ reflexivity | ]. cbv beta iota.
    rewrite (Hany c1 Hc1).
    apply lit_spec. eexists. split; [ reflexivity | ]. cbv beta iota.
    apply rep_spec. exists d, (c2 :: e ++ tail)%list.
    split; [ reflexivity | ]. split; [ exact Hlen | ].
    split; [ exact Hdig | ]. cbv beta iota.
    rewrite captured_prefix, (Hany c2 Hc2).
    assert (Hend : match tail with
                   | [] => Some [d; e]
                   | [x] => if Ascii.eqb x newline then Some [d; e] else None
                   | _ => None
                   end = Some [d; e]).
    { destruct Ht as [-> | ->]; reflexivity. }
    destruct He as [-> | ->].
    + match goal with
      | |- match ?m with Some x => Some x | None => _ end = _ =>
          assert (Hm : m = Some [d; str "gz"])
      end.
      { apply lit_spec. exists tail. split; [ reflexivity | ].
        rewrite captured_prefix. exact Hend. }
      rewrite Hm. reflexivity.
    + match goal with
      | |- match ?m with Some x => Some x | None => _ end = _ =>
          assert (Hm : m = None) by reflexivity
      end.
      rewrite Hm.
      apply lit_spec. exists tail. split; [ reflexivity | ].
      rewrite captured_prefix. exact Hend.
Qed.

(** X1: The names accepted by [LOG_FILENAME_PATTERN] and what its two groups
    capture: the fixed parts of the name, any character but a newline at
    each of the two unescaped dots, eight digits, [gz] or [log], and at
    most one final newline. *)
Theorem log_filename_pattern_spec (file d e : text) :
  search LOG_FILENAME_PATTERN file = Some [d; e]
  <-> exists c1 c2 tail,
        file = (str "nginx-access-ui" ++ c1 :: str "log-" ++ d
                  ++ c2 :: e ++ tail)%list
        /\ c1 <> newline /\ c2 <> newline
        /\ List.length d = 8%nat /\ forallb is_digit d = true
        /\ (e = str "gz" \/ e = str "log")
        /\ (tail = [] \/ tail = [newline]).
Proof. exact (log_filename_pattern_iff file d e). Qed.

End RegexProperties.

(** ** Dates, the selected log and the name of its report *)

Section LocatorExtras.
Import Py Regex Locator Main Samples.

Lemma digit_char_val (c : ascii) :
  is_digit c = true ->
  digit_char (digit_val c) = c /\ (0 <= digit_val c <= 9)%Z.
Proof.
  unfold is_digit, digit_char, digit_val. intros H.
  apply andb_true_iff in H. destruct H as [H1 H2].
  apply Nat.leb_le in H1, H2. split; [ | lia ].
  replace (Z.to_nat (48 + (Z.of_nat (nat_of_ascii c) - 48)))
    with (nat_of_ascii c) by lia.
  apply ascii_nat_embedding.
Qed.

Lemma strptime_inv (s : text) (d : datetime) :
  strptime s = Ok d ->
  exists y1 y2 y3 y4 m1 m2 d1 d2,
    s = [y1; y2; y3; y4; m1; m2; d1; d2]
    /\ forallb is_digit s = true
    /\ year d = int_of_digits [y1; y2; y3; y4]
    /\ month d = int_of_digits [m1; m2]
    /\ day d = int_of_digits [d1; d2]
    /\ (1 <= month d <= 12)%Z /\ (1 <= year d)%Z
    /\ (1 <= day d <= days_in_month (year d) (month d))%Z.
Proof.
  unfold strptime. intros H.
  destruct s as [|y1 [|y2 [|y3 [|y4 [|m1 [|m2 [|d1 [|d2 [|x s]]]]]]]]];
    try discriminate.
  match type of H with
  | (if ?a && ?b then _ else _) = _ =>
      destruct a eqn:Hdig; [ destruct b eqn:Hrange | ]; try discriminate
  end.
  cbv beta iota zeta in H. cbn [andb] in H.
  match type of H with
  | (if ?c then _ else _) = _ => destruct c eqn:Hcal; [ | discriminate ]
  end.
  inversion H; subst; clear H. simpl year. simpl month. simpl day.
  exists y1, y2, y3, y4, m1, m2, d1, d2.
  apply andb_true_iff in Hcal. destruct Hcal as [Hy Hd].
  repeat rewrite andb_true_iff in Hrange.
  destruct Hrange as [[[Hm1 Hm2] Hd1] Hd2].
  apply Z.leb_le in Hy, Hd, Hm1, Hm2, Hd1, Hd2.
  repeat split; auto.
Qed.

(** X2: A date accepted by [strptime] is a day of the calendar: the month is
    1..12, the day exists in that month of that year, and the year is
    1..9999. *)
Theorem strptime_calendar_date (s : text) (d : datetime)
        (Hok : strptime s = Ok d) :
  (1 <= year d <= 9999)%Z /\ (1 <= month d <= 12)%Z
  /\ (1 <= day d <= days_in_month (year d) (month d))%Z
  /\ (days_in_month (year d) (month d) <= 31)%Z
  /\ (month d = 2 -> day d = 29 ->
      (year d mod 4 = 0 /\ (year d mod 100 <> 0 \/ year d mod 400 = 0)))%Z.
Proof.
  destruct (strptime_inv _ Hok)
    as (y1 & y2 & y3 & y4 & m1 & m2 & d1 & d2 & -> & Hdig & Hy & Hm & Hd
        & Hmr & Hy1 & Hdr).
  simpl in Hdig. repeat rewrite andb_true_iff in Hdig.
  destruct Hdig as (D1 & D2 & D3 & D4 & _).
  apply digit_char_val in D1, D2, D3, D4.
  destruct D1 as [_ D1], D2 as [_ D2], D3 as [_ D3], D4 as [_ D4].
  assert (Hy9 : (year d <= 9999)%Z).
  { rewrite Hy. unfold int_of_digits. cbn [fold_left]. lia. }
  repeat split; try lia.
  - unfold days_in_month.
    destruct (month d =? 2)%Z; [ destruct (is_leap (year d)); lia | ].
    destruct ((month d =? 4) || (month d =? 6) || (month d =? 9)
              || (month d =? 11))%Z; lia.
  - rewrite H, H0 in Hdr. unfold days_in_month, is_leap in Hdr.
    change (2 =? 2)%Z with true in Hdr. cbv iota in Hdr.
    destruct (year d mod 4 =? 0)%Z eqn:E; cbn [andb] in Hdr; [ | lia ].
    apply Z.eqb_eq in E. exact E.
  - rewrite H, H0 in Hdr. unfold days_in_month, is_leap in Hdr.
    change (2 =? 2)%Z with true in Hdr. cbv iota in Hdr.
    destruct (year d mod 4 =? 0)%Z eqn:E; cbn [andb] in Hdr; [ | lia ].
    destruct (year d mod 100 =? 0)%Z eqn:E1; cbn [negb orb] in Hdr.
    + destruct (year d mod 400 =? 0)%Z eqn:E2; [ | lia ].
      apply Z.eqb_eq in E2. auto.
    + apply Z.eqb_neq in E1. auto.
Qed.

Lemma strptime_calendar_date_witness :
  strptime (str "20160229") = Ok (mkDate 2016 2 29)
  /\ (1 <= 2016 <= 9999)%Z.
Proof.
  assert (H : strptime (str "20160229") = Ok (mkDate 2016 2 29))
    by (vm_compute; reflexivity).
  split; [ exact H | ].
  exact (proj1 (@strptime_calendar_date (str "20160229") (mkDate 2016 2 29) H)).
Defined.

(** X3: The report of a log dated from the year 1000 on is named after the
    digits of the date in the name of the log. *)
Theorem report_filename_digits (s : text) (d : datetime)
        (Hok : strptime s = Ok d) (Hyear : (1000 <= year d)%Z) :
  report_filename d
  = (str "report-" ++ firstn 4 s ++ str "." ++ firstn 2 (skipn 4 s)
       ++ str "." ++ skipn 6 s ++ str ".html")%list.
Proof.
  destruct (strptime_inv _ Hok)
    as (y1 & y2 & y3 & y4 & m1 & m2 & d1 & d2 & -> & Hdig & Hy & Hm & Hd & _).
  simpl in Hdig. repeat rewrite andb_true_iff in Hdig.
  destruct Hdig as (D1 & D2 & D3 & D4 & D5 & D6 & D7 & D8 & _).
  apply digit_char_val in D1, D2, D3, D4, D5, D6, D7, D8.
  destruct D1 as [E1 B1], D2 as [E2 B2], D3 as [E3 B3], D4 as [E4 B4],
           D5 as [E5 B5], D6 as [E6 B6], D7 as [E7 B7], D8 as [E8 B8].
  unfold report_filename, year_digits, pad2.
  unfold int_of_digits in Hy, Hm, Hd. cbn [fold_left] in Hy, Hm, Hd.
  simpl firstn. simpl skipn.
  assert (Hy1000 : (year d <? 1000)%Z = false) by (apply Z.ltb_ge; lia).
  assert (Hy100 : (year d <? 100)%Z = false) by (apply Z.ltb_ge; lia).
  assert (Hy10 : (year d <? 10)%Z = false) by (apply Z.ltb_ge; lia).
  rewrite Hy1000, Hy100, Hy10.
  replace (year d / 1000)%Z with (digit_val y1)
    by (rewrite Hy; Z.div_mod_to_equations; lia).
  replace ((year d / 100) mod 10)%Z with (digit_val y2)
    by (rewrite Hy; Z.div_mod_to_equations; lia).
  replace ((year d / 10) mod 10)%Z with (digit_val y3)
    by (rewrite Hy; Z.div_mod_to_equations; lia).
  replace (year d mod 10)%Z with (digit_val y4)
    by (rewrite Hy; Z.div_mod_to_equations; lia).
  replace (month d / 10)%Z with (digit_val m1)
    by (rewrite Hm; Z.div_mod_to_equations; lia).
  replace (month d mod 10)%Z with (digit_val m2)
    by (rewrite Hm; Z.div_mod_to_equations; lia).
  replace (day d / 10)%Z with (digit_val d1)
    by (rewrite Hd; Z.div_mod_to_equations; lia).
  replace (day d mod 10)%Z with (digit_val d2)
    by (rewrite Hd; Z.div_mod_to_equations; lia).
  rewrite E1, E2, E3, E4, E5, E6, E7, E8. reflexivity.
Qed.

Lemma report_filename_digits_witness :
  strptime (str "20170630") = Ok (mkDate 2017 6 30)
  /\ report_filename (mkDate 2017 6 30) = str "report-2017.06.30.html".
Proof.
  assert (H : strptime (str "20170630") = Ok (mkDate 2017 6 30))
    by (vm_compute; reflexivity).
  split; [ exact H | ].
  refine (@report_filename_digits (str "20170630") (mkDate 2017 6 30) H _).
  vm_compute. discriminate.
Defined.

(** X4: [find_most_recent_log] returns [None] for an empty listing only, and
    a
    log it returns is the first entry of the listing: its name matches the
    pattern, its date is the calendar date spelled by the eight digits, its
    path is built from that entry and its extension is [gz] or [log]. *)
Theorem find_most_recent_log_outcomes
        (abspath_join : text -> text -> text) (directory : text)
        (listing : option (list text)) :
  (find_most_recent_log abspath_join directory listing = Ok None
   <-> listing = Some [])
  /\ forall lf : LogFile,
      find_most_recent_log abspath_join directory listing = Ok (Some lf) ->
      exists file rest ds,
        listing = Some (file :: rest)
        /\ search LOG_FILENAME_PATTERN file = Some [ds; extension lf]
        /\ strptime ds = Ok (date lf)
        /\ path lf = abspath_join directory file
        /\ (extension lf = str "gz" \/ extension lf = str "log").
Proof.
  assert (Hbody : forall file lf,
             loop_body abspath_join directory scan0 file = Ok lf ->
             exists ds,
               search LOG_FILENAME_PATTERN file = Some [ds; extension lf]
               /\ strptime ds = Ok (date lf)
               /\ path lf = abspath_join directory file).
  { intros file lf H. unfold loop_body in H.
    destruct (search LOG_FILENAME_PATTERN file) as [[|ds [|e [|x l]]]|]
      eqn:Hs; try discriminate.
    destruct (strptime ds) as [dt|err] eqn:Hp; simpl in H; [ | discriminate ].
    inversion H; subst lf. simpl. exists ds. repeat split; assumption. }
  split.
  - destruct listing as [[|file rest]|]; simpl.
    + split; reflexivity.
    + destruct (loop_body abspath_join directory scan0 file); simpl;
        split; discriminate.
    + split; discriminate.
  - intros lf H. destruct listing as [[|file rest]|]; simpl in H;
      try discriminate.
    destruct (loop_body abspath_join directory scan0 file) as [r|] eqn:Hb;
      simpl in H; [ | discriminate ].
    inversion H; subst r.
    destruct (Hbody _ _ Hb) as (ds & Hs & Hp & Hpath).
    exists file, rest, ds. repeat split; auto.
    apply log_filename_pattern_iff in Hs.
    destruct Hs as (_ & _ & _ & _ & _ & _ & _ & _ & He & _). exact He.
Qed.

Lemma find_most_recent_log_outcomes_witness :
  find_most_recent_log (fun d f => (d ++ f)%list) (str "log/")
    (Some [log_20170630; other_file])
  = Ok (Some (mkLogFile (str "log/nginx-access-ui.log-20170630.gz")
                        (mkDate 2017 6 30) (str "gz")))
  /\ exists file rest ds,
      Some [log_20170630; other_file] = Some (file :: rest)
      /\ search LOG_FILENAME_PATTERN file = Some [ds; str "gz"]
      /\ strptime ds = Ok (mkDate 2017 6 30).
Proof.
  assert (H : find_most_recent_log (fun d f => (d ++ f)%list) (str "log/")
                (Some [log_20170630; other_file])
              = Ok (Some (mkLogFile
                            (str "log/nginx-access-ui.log-20170630.gz")
                            (mkDate 2017 6 30) (str "gz"))))
    by (vm_compute; reflexivity).
  split; [ exact H | ].
  destruct (proj2 (find_most_recent_log_outcomes
                     (fun d f => (d ++ f)%list) (str "log/")
                     (Some [log_20170630; other_file])) _ H)
    as (file & rest & ds & H1 & H2 & H3 & _).
  exists file, rest, ds. auto.
Defined.

End LocatorExtras.

(** ** What the parser yields *)

Section ParserExtras.
Import Py Regex Parser Samples.
Local Open Scope Q_scope.

Lemma split_ws_tokens (s : text) :
  forall cur tok,
    forallb (fun c => negb (is_space c)) cur = true ->
    In tok (split_ws cur s) -> is_token tok.
Proof.
  induction s as [|c s IH]; simpl; intros cur tok Hcur Hin.
  - destruct cur as [|x cur]; [ contradiction | ].
    destruct Hin as [<-|[]]. split.
    + intros E. apply (f_equal (@List.length ascii)) in E.
      rewrite length_rev in E. discriminate.
    + rewrite forallb_forall in *. intros y Hy. apply Hcur.
      apply in_rev. exact Hy.
  - destruct (is_space c) eqn:Hc.
    + destruct cur as [|x cur].
      * apply (IH [] tok); auto.
      * destruct Hin as [<-|Hin]; [ | apply (IH [] tok); auto ].
        split.
        -- intros E. apply (f_equal (@List.length ascii)) in E.
           rewrite length_rev in E. discriminate.
        -- rewrite forallb_forall in *. intros y Hy. apply Hcur.
           apply in_rev. exact Hy.
    + apply (IH (c :: cur) tok); auto. simpl. rewrite Hc. exact Hcur.
Qed.

Lemma split_ws_no_space (s : text) :
  forall cur,
    forallb (fun c => negb (is_space c)) s = true ->
    split_ws cur s = match (rev cur ++ s)%list with [] => [] | t => [t] end.
Proof.
  induction s as [|c s IH]; simpl; intros cur Hs.
  - rewrite app_nil_r. destruct cur as [|x cur]; [ reflexivity | ].
    destruct (rev (x :: cur)) eqn:E; [ | reflexivity ].
    apply (f_equal (@List.length ascii)) in E. rewrite length_rev in E.
    discriminate.
  - apply andb_true_iff in Hs. destruct Hs as [Hc Hs].
    apply negb_true_iff in Hc. rewrite Hc, (IH (c :: cur) Hs). simpl.
    rewrite <- app_assoc. reflexivity.
Qed.

(** X5: [str.split()]: every token is non-empty and free of white space, and a
    non-empty text without white space is its own single token. *)
Theorem split_tokens (s : text) :
  (forall tok, In tok (split s) -> is_token tok)
  /\ (is_token s -> split s = [s]).
Proof.
  split.
  - intros tok. apply split_ws_tokens. reflexivity.
  - intros [Hne Hs]. unfold split. rewrite (@split_ws_no_space s [] Hs). simpl.
    destruct s; [ contradiction | reflexivity ].
Qed.

Lemma split_tokens_witness :
  is_token (str "/api/v2/banner/1")
  /\ split (str "/api/v2/banner/1") = [str "/api/v2/banner/1"].
Proof.
  assert (H : is_token (str "/api/v2/banner/1"))
    by (split; [ discriminate | vm_compute; reflexivity ]).
  split; [ exact H | ].
  exact (proj2 (split_tokens (str "/api/v2/banner/1")) H).
Defined.

(** *** The access-log pattern *)

Lemma cls_lit_eq (c x : ascii) : cls_ok (CLit c) x = true -> x = c.
Proof. simpl. apply Ascii.eqb_eq. Qed.

Ltac take_atom H x p E :=
  destruct p as [|x p]; [ discriminate | ];
  destruct (cls_ok _ x) eqn:E; [ | discriminate ].

Ltac take_plus H pre post Hne Hall :=
  apply plus_sound in H;
  destruct H as (pre & post & -> & Hne & Hall & H); cbv beta in H.

(** X6: A line accepted by [LOG_FORMAT_PATTERN] has the access-log shape, and
    the two groups capture the quoted request (free of newlines) and a
    duration field made of digits, one character and digits. *)
Theorem log_format_pattern_shape (line : text) (caps : list text)
        (Hmatch : search LOG_FORMAT_PATTERN line = Some caps) :
  exists a b g1 st c n1 x n2 rest,
    caps = [g1; (n1 ++ x :: n2)%list]
    /\ line = (a ++ "["%char :: b ++ "]"%char :: " "%char :: dquote :: g1
                 ++ dquote :: " "%char :: st ++ c ++ " "%char :: n1
                 ++ x :: n2 ++ rest)%list
    /\ (a <> [] /\ free_of newline a) /\ (b <> [] /\ free_of newline b)
    /\ (g1 <> [] /\ free_of newline g1) /\ (c <> [] /\ free_of newline c)
    /\ (List.length st = 3%nat /\ forallb is_digit st = true)
    /\ (n1 <> [] /\ forallb is_digit n1 = true)
    /\ x <> newline
    /\ (n2 <> [] /\ forallb is_digit n2 = true).
Proof.
  pose proof Hmatch as H. revert H.
  unfold search, LOG_FORMAT_PATTERN. cbn [cat mt]. intros H.
  take_plus H a p1 Ha Ha'.
  take_atom H x1 p1 E1. apply cls_lit_eq in E1. subst x1.
  take_plus H b p2 Hb Hb'.
  take_atom H x2 p2 E2. apply cls_lit_eq in E2. subst x2.
  take_atom H x3 p2 E3. apply cls_lit_eq in E3. subst x3.
  take_atom H x4 p2 E4. apply cls_lit_eq in E4. subst x4.
  take_plus H g1 p3 Hg Hg'.
  rewrite captured_prefix in H.
  take_atom H x5 p3 E5. apply cls_lit_eq in E5. subst x5.
  take_atom H x6 p3 E6. apply cls_lit_eq in E6. subst x6.
  apply rep_spec in H. destruct H as (st & p4 & -> & Hst & Hst' & H).
  cbv beta in H.
  take_plus H c p5 Hc Hc'.
  take_atom H x7 p5 E7. apply cls_lit_eq in E7. subst x7.
  take_plus H n1 p6 Hn1 Hn1'.
  take_atom H x p6 Ex.
  take_plus H n2 rest Hn2 Hn2'.
  replace (n1 ++ x :: n2 ++ rest)%list with ((n1 ++ x :: n2) ++ rest)%list
    in H by (rewrite <- app_assoc; reflexivity).
  rewrite captured_prefix in H. inversion H; subst caps. clear H.
  exists a, b, g1, st, c, n1, x, n2, rest.
  repeat split; auto.
  intros ->. discriminate.
Qed.

Lemma log_format_pattern_shape_witness :
  search LOG_FORMAT_PATTERN line_ok
  = Some [str "GET /api/v2/banner/1 HTTP/1.1"; str "0.390"]
  /\ exists g1 g2,
      [str "GET /api/v2/banner/1 HTTP/1.1"; str "0.390"] = [g1; g2].
Proof.
  assert (H : search LOG_FORMAT_PATTERN line_ok
              = Some [str "GET /api/v2/banner/1 HTTP/1.1"; str "0.390"])
    by (vm_compute; reflexivity).
  split; [ exact H | ].
  destruct (@log_format_pattern_shape line_ok _ H)
    as (a & b & g1 & st & c & n1 & x & n2 & rest & Hcaps & _).
  exists g1, (n1 ++ x :: n2)%list. exact Hcaps.
Defined.

(** *** Durations and URLs of the yielded lines *)

Lemma int_of_digits_acc (s : text) :
  forall acc : Z,
    (0 <= acc)%Z -> forallb is_digit s = true ->
    (0 <= fold_left (fun a c => (10 * a + digit_val c)%Z) s acc)%Z.
Proof.
  induction s as [|c s IH]; cbn [fold_left forallb]; intros acc Hacc Hs;
    [ exact Hacc | ].
  apply andb_true_iff in Hs. destruct Hs as [Hc Hs].
  apply IH; [ | exact Hs ].
  destruct (digit_char_val c Hc) as [_ Hv]. lia.
Qed.

Lemma int_of_digits_nonneg (s : text) :
  forallb is_digit s = true -> (0 <= int_of_digits s)%Z.
Proof. intros H. apply int_of_digits_acc; [ lia | exact H ]. Qed.

Lemma span_digits_digits (s a b : text) :
  span_digits s = (a, b) -> forallb is_digit a = true.
Proof.
  revert a b. induction s as [|c s IH]; simpl; intros a b H.
  - inversion H. reflexivity.
  - destruct (is_digit c) eqn:Hc.
    + destruct (span_digits s) as [a' b'] eqn:E. inversion H; subst.
      simpl. rewrite Hc. apply (IH a' b). reflexivity.
    + inversion H. reflexivity.
Qed.

Lemma inject_Z_nonneg (z : Z) : (0 <= z)%Z -> 0 <= inject_Z z.
Proof. intros H. change 0 with (inject_Z 0). rewrite <- Zle_Qle. exact H. Qed.

Lemma Ok_inj (A : Type) (a b : A) : Ok a = Ok b -> a = b.
Proof. intros H. inversion H. reflexivity. Qed.

Lemma py_float_nonneg (s : text) (q : Q) : py_float s = Ok q -> 0 <= q.
Proof.
  unfold py_float. destruct (span_digits s) as [a rest] eqn:E.
  pose proof (span_digits_digits _ E) as Ha.
  pose proof (int_of_digits_nonneg _ Ha) as Hna.
  destruct a as [|a0 a]; [ destruct rest; discriminate | ].
  destruct rest as [|c [|b0 b]].
  - intros H. apply Ok_inj in H. subst q. apply inject_Z_nonneg. exact Hna.
  - discriminate.
  - destruct (forallb is_digit (b0 :: b)) eqn:Hb; [ | discriminate ].
    pose proof (int_of_digits_nonneg _ Hb) as Hnb.
    destruct (Ascii.eqb c ".").
    { intros H. apply Ok_inj in H. subst q.
      assert (Hp : 0 < inject_Z (10 ^ Z.of_nat (List.length (b0 :: b)))).
      { change 0 with (inject_Z 0). rewrite <- Zlt_Qlt.
        apply Z.pow_pos_nonneg; [ reflexivity | apply Nat2Z.is_nonneg ]. }
      assert (0 <= inject_Z (int_of_digits (b0 :: b))
                   / inject_Z (10 ^ Z.of_nat (List.length (b0 :: b)))).
      { apply Qle_shift_div_l; [ exact Hp | ].
        rewrite Qmult_0_l. apply inject_Z_nonneg. exact Hnb. }
      pose proof (inject_Z_nonneg Hna). lra. }
    destruct (Ascii.eqb c "e" || Ascii.eqb c "E").
    { intros H. apply Ok_inj in H. subst q. apply inject_Z_nonneg.
      apply Z.mul_nonneg_nonneg; [ exact Hna | ].
      apply Z.pow_nonneg. lia. }
    destruct (Ascii.eqb c "_"); [ | discriminate ].
    intros H. apply Ok_inj in H. subst q. apply inject_Z_nonneg.
    apply int_of_digits_nonneg. rewrite forallb_app, Ha, Hb. reflexivity.
Qed.

Lemma parse_line_ok (url_var url_var' : option text) (line : text)
      (item : option LogLine) :
  parse_line url_var line = Ok (item, url_var') ->
  (url_ok url_var -> url_ok url_var')
  /\ match item with
     | Some l => 0 <= time l /\ url_var' = Some (url l)
     | None => url_var' = url_var
     end.
Proof.
  unfold parse_line.
  destruct (search LOG_FORMAT_PATTERN line) as [[|g1 [|g2 [|g3 caps]]]|];
    try (intros H; inversion H; subst; split; auto; fail).
  set (uv := match split g1 with [_; u; _] => Some u | _ => url_var end).
  assert (Huv : url_ok url_var -> url_ok uv).
  { intros Hok. subst uv.
    destruct (split g1) as [|t1 [|t2 [|t3 [|t4 ts]]]] eqn:Es; auto.
    simpl. apply (@split_ws_tokens g1 [] _ eq_refl). fold (split g1).
    rewrite Es. simpl. auto. }
  destruct (py_float g2) as [q|] eqn:Hq; simpl; [ | discriminate ].
  destruct uv as [u|]; [ | discriminate ].
  intros H. inversion H; subst. simpl. split; [ exact Huv | ].
  split; [ exact (py_float_nonneg _ Hq) | reflexivity ].
Qed.

Lemma parse_line_raise (url_var : option text) (line : text) (e : exn) :
  parse_line url_var line = Raise e ->
  e = ValueError "could not convert string to float"
  \/ (e = UnboundLocalError "url" /\ url_var = None).
Proof.
  unfold parse_line.
  destruct (search LOG_FORMAT_PATTERN line) as [[|g1 [|g2 [|g3 caps]]]|];
    try discriminate.
  destruct (py_float g2) as [q|e'] eqn:Hq; simpl.
  - destruct (split g1) as [|t1 [|t2 [|t3 [|t4 ts]]]];
      try discriminate;
      destruct url_var; try discriminate;
      intros H; inversion H; auto.
  - intros H. inversion H; subst e'. left.
    unfold py_float in Hq.
    destruct (span_digits g2) as [[|a0 a] [|c [|b0 b]]];
      try (inversion Hq; reflexivity).
    destruct (forallb is_digit (b0 :: b)); [ | inversion Hq; reflexivity ].
    destruct (Ascii.eqb c "."); [ discriminate | ].
    destruct (Ascii.eqb c "e" || Ascii.eqb c "E"); [ discriminate | ].
    destruct (Ascii.eqb c "_"); [ discriminate | ].
    inversion Hq; reflexivity.
Qed.

Lemma parse_lines_yields (lines : list text) :
  forall url_var l,
    url_ok url_var ->
    In (Some l) (yields (parse_lines url_var lines)) ->
    0 <= time l /\ is_token (url l).
Proof.
  induction lines as [|line rest IH]; simpl; intros url_var l Hok Hin;
    [ contradiction | ].
  destruct (parse_line url_var line) as [[item url_var']|e] eqn:Hp;
    simpl in Hin; [ | contradiction ].
  destruct (parse_line_ok _ _ Hp) as [Hok' Hitem].
  destruct Hin as [->|Hin].
  - destruct Hitem as [Ht Hu]. split; [ exact Ht | ].
    specialize (Hok' Hok). rewrite Hu in Hok'. exact Hok'.
  - apply (IH url_var' l); auto.
Qed.

(** X7: Every line yielded as parsed carries a non-negative duration and a URL
    that is a non-empty text without white space. *)
Theorem parse_log_yields (lines : list text) (l : LogLine)
        (Hin : In (Some l) (yields (parse_log lines))) :
  0 <= time l /\ is_token (url l).
Proof. exact (@parse_lines_yields lines None l I Hin). Qed.

Lemma parse_log_yields_witness :
  In (Some (mkLogLine (str "/api/v2/banner/1") (390 # 1000)))
     (yields (parse_log boundary_log))
  /\ 0 <= 390 # 1000.
Proof.
  assert (H : In (Some (mkLogLine (str "/api/v2/banner/1") (390 # 1000)))
                 (yields (parse_log boundary_log)))
    by (vm_compute; right; left; reflexivity).
  split; [ exact H | ].
  exact (proj1 (@parse_log_yields boundary_log _ H)).
Defined.

Lemma parse_lines_errors (lines : list text) :
  forall url_var e,
    stream_error (parse_lines url_var lines) = Some e ->
    e = ValueError "could not convert string to float"
    \/ (e = UnboundLocalError "url" /\ url_var = None
        /\ forall it, In it (yields (parse_lines url_var lines)) -> it = None).
Proof.
  induction lines as [|line rest IH]; simpl; intros url_var e H;
    [ discriminate | ].
  destruct (parse_line url_var line) as [[item url_var']|e'] eqn:Hp;
    simpl in H |- *.
  - destruct (IH _ _ H) as [Hv|(He & Hn & Hall)]; [ left; exact Hv | ].
    right. destruct (parse_line_ok _ _ Hp) as [_ Hitem].
    destruct item as [l|].
    + destruct Hitem as [_ Hu]. congruence.
    + subst url_var'. rewrite Hitem in *. repeat split; auto.
      intros it [<-|Hin]; auto.
  - inversion H; subst e'.
    destruct (parse_line_raise _ _ Hp) as [Hv|[He Hn]]; [ left; exact Hv | ].
    right. repeat split; auto. intros it [].
Qed.

(** X8: The generator can only fail with the [ValueError] of [float] or with
    [UnboundLocalError] for [url], and the latter only while every line
    before was yielded as unparsed. *)
Theorem parse_log_errors (lines : list text) (e : exn)
        (Hraise : stream_error (parse_log lines) = Some e) :
  e = ValueError "could not convert string to float"
  \/ (e = UnboundLocalError "url"
      /\ forall it, In it (yields (parse_log lines)) -> it = None).
Proof.
  destruct (@parse_lines_errors lines None e Hraise) as [H|(H1 & _ & H2)];
    [ left; exact H | right; split; assumption ].
Qed.

Lemma parse_log_errors_witness :
  stream_error (parse_log [line_junk; line_two_tokens])
  = Some (UnboundLocalError "url")
  /\ forall it, In it (yields (parse_log [line_junk; line_two_tokens])) ->
                it = None.
Proof.
  assert (H : stream_error (parse_log [line_junk; line_two_tokens])
              = Some (UnboundLocalError "url")) by (vm_compute; reflexivity).
  split; [ exact H | ].
  destruct (@parse_log_errors [line_junk; line_two_tokens] _ H)
    as [Hv|[_ Hall]]; [ discriminate | exact Hall ].
Defined.

End ParserExtras.

(** ** What the aggregator records *)

Section AggregatorExtras.
Import Py Parser Aggregator Samples.
Local Open Scope Q_scope.

Lemma text_eqb_refl (a : text) : text_eqb a a = true.
Proof. apply text_eqb_eq. reflexivity. Qed.

Lemma text_eqb_neq (a b : text) : a <> b -> text_eqb a b = false.
Proof.
  intros H. destruct (text_eqb a b) eqn:E; [ | reflexivity ].
  apply text_eqb_eq in E. contradiction.
Qed.

Lemma dict_get_append_same (d : dict) (k : text) (v : Q) :
  dict_get (dict_append d k v) k = Some (dict_get_list d k ++ [v])%list.
Proof.
  unfold dict_get_list. induction d as [|[k' vs] d IH]; simpl.
  - rewrite text_eqb_refl. reflexivity.
  - destruct (text_eqb k' k) eqn:E; simpl; rewrite E; [ reflexivity | ].
    exact IH.
Qed.

Lemma dict_get_append_other (d : dict) (k k' : text) (v : Q) :
  k' <> k -> dict_get (dict_append d k v) k' = dict_get d k'.
Proof.
  intros Hne. induction d as [|[k0 vs] d IH]; simpl.
  - rewrite text_eqb_neq by auto. reflexivity.
  - destruct (text_eqb k0 k) eqn:E; simpl.
    + apply text_eqb_eq in E. subst k0.
      rewrite text_eqb_neq by auto. reflexivity.
    + destruct (text_eqb k0 k'); [ reflexivity | exact IH ].
Qed.

(** X9: [requests_by_url[k].append(v)] then a lookup: the list of [k] is its
    former list (empty for a new key) followed by [v], and the list of
    every other key is unchanged. *)
Theorem dict_append_lookup (d : dict) (k : text) (v : Q) :
  dict_get (dict_append d k v) k = Some (dict_get_list d k ++ [v])%list
  /\ forall k', k' <> k -> dict_get (dict_append d k v) k' = dict_get d k'.
Proof.
  split; [ apply dict_get_append_same | ].
  intros k'. apply dict_get_append_other.
Qed.

Lemma dict_append_lookup_witness :
  str "/b" <> str "/a"
  /\ dict_get (dict_append [(str "/b", [1])] (str "/a") 2) (str "/b")
     = Some [1].
Proof.
  assert (H : str "/b" <> str "/a") by discriminate.
  split; [ exact H | ].
  exact (proj2 (dict_append_lookup [(str "/b", [1])] (str "/a") 2)
               (str "/b") H).
Defined.

Lemma consume_ok_items (s : stream (option LogLine)) :
  forall acc acc',
    consume s acc = Ok acc' ->
    exists its, items s = Some its /\ acc' = fold_left step its acc.
Proof.
  induction s as [|a s IH|e]; simpl; intros acc acc' H.
  - inversion H. exists []. auto.
  - destruct (IH _ _ H) as (its & Hi & Ha). exists (a :: its).
    rewrite Hi. auto.
  - discriminate.
Qed.

Lemma items_yields (A : Type) (s : stream A) (its : list A) :
  items s = Some its -> yields s = its.
Proof.
  revert its. induction s as [|a s IH|e]; simpl; intros its H.
  - inversion H. reflexivity.
  - destruct (items s) as [its'|]; [ | discriminate ].
    inversion H. rewrite (IH its' eq_refl). reflexivity.
  - discriminate.
Qed.

Lemma fold_step_groups (its : list (option LogLine)) :
  forall acc u,
    dict_get (requests_by_url (fold_left step its acc)) u
    = match dict_get (requests_by_url acc) u, times_of u its with
      | None, [] => None
      | None, ts => Some ts
      | Some l, ts => Some (l ++ ts)%list
      end.
Proof.
  induction its as [|[l|] its IH]; intros acc u; simpl.
  - destruct (dict_get (requests_by_url acc) u); [ | reflexivity ].
    rewrite app_nil_r. reflexivity.
  - rewrite IH. simpl.
    destruct (text_eqb (url l) u) eqn:E.
    + apply text_eqb_eq in E. subst u.
      rewrite dict_get_append_same. unfold dict_get_list.
      destruct (dict_get (requests_by_url acc) (url l)); simpl.
      * rewrite <- app_assoc. reflexivity.
      * reflexivity.
    + rewrite dict_get_append_other
        by (intros ->; rewrite text_eqb_refl in E; discriminate).
      reflexivity.
  - rewrite IH. reflexivity.
Qed.

Lemma count_url_ok_items (lines : list text) (thr : Q) (d : dict) (t : Q) :
  count_url lines thr = Ok (d, t) ->
  exists its,
    items (parse_log lines) = Some its
    /\ d = requests_by_url (fold_left step its totals0)
    /\ t = total_requests_time (fold_left step its totals0).
Proof.
  unfold count_url. intros H.
  destruct (consume (parse_log lines) totals0) as [acc|] eqn:Hc;
    simpl in H; [ | discriminate ].
  destruct (py_div (invalid_lines acc) (invalid_lines acc + parsed_lines acc));
    simpl in H; [ | discriminate ].
  destruct (Qgtb a thr); [ discriminate | ].
  inversion H; subst.
  destruct (consume_ok_items _ _ Hc) as (its & Hi & ->).
  exists its. auto.
Qed.

(** X10: Grouping: in the dict returned by [count_url], the list of a URL holds
    the durations of the parsed lines with that URL, in the order of the
    log, and a URL without parsed line is no key. *)
Theorem count_url_groups (lines : list text) (error_threshold : Q)
        (d : dict) (t : Q)
        (Hret : count_url lines error_threshold = Ok (d, t)) :
  exists its,
    items (parse_log lines) = Some its
    /\ forall u,
        dict_get d u
        = match times_of u its with [] => None | ts => Some ts end.
Proof.
  destruct (count_url_ok_items _ _ Hret) as (its & Hi & -> & _).
  exists its. split; [ exact Hi | ].
  intros u. rewrite fold_step_groups. reflexivity.
Qed.

Lemma count_url_groups_witness :
  count_url boundary_log default_error_threshold
  = Ok ([(str "/api/v2/banner/1",
          [390 # 1000; 390 # 1000; 390 # 1000; 390 # 1000])],
        0 + (390 # 1000) + (390 # 1000) + (390 # 1000) + (390 # 1000))
  /\ exists its, items (parse_log boundary_log) = Some its.
Proof.
  assert (H : count_url boundary_log default_error_threshold
              = Ok ([(str "/api/v2/banner/1",
                      [390 # 1000; 390 # 1000; 390 # 1000; 390 # 1000])],
                    0 + (390 # 1000) + (390 # 1000) + (390 # 1000)
                    + (390 # 1000)))
    by (vm_compute; reflexivity).
  split; [ exact H | ].
  destruct (@count_url_groups boundary_log default_error_threshold _ _ H)
    as (its & Hi & _).
  exists its. exact Hi.
Defined.

Lemma dict_append_ok (d : dict) (k : text) (v : Q) :
  durations_ok d -> is_token k -> 0 <= v -> durations_ok (dict_append d k v).
Proof.
  intros Hd Hk Hv. induction d as [|[k' vs] d IH]; simpl.
  - intros u ds [H|[]]. inversion H; subst. repeat split; try apply Hk.
    + discriminate.
    + intros x [<-|[]]. exact Hv.
  - assert (Hd' : durations_ok d).
    { intros u ds Hin. apply Hd. right. exact Hin. }
    destruct (Hd k' vs (or_introl eq_refl)) as (Hk' & Hne & Hpos).
    destruct (text_eqb k' k).
    + intros u ds [H|Hin]; [ | apply Hd; right; exact Hin ].
      inversion H; subst. repeat split; try apply Hk'.
      * destruct vs; discriminate.
      * intros x Hx. apply in_app_or in Hx.
        destruct Hx as [Hx|[<-|[]]]; [ apply Hpos; exact Hx | exact Hv ].
    + intros u ds [H|Hin]; [ | apply (IH Hd'); exact Hin ].
      inversion H; subst. repeat split; auto; apply Hk'.
Qed.

Lemma fold_step_ok (its : list (option LogLine)) :
  forall acc,
    (forall l, In (Some l) its -> 0 <= time l /\ is_token (url l)) ->
    0 <= total_requests_time acc -> durations_ok (requests_by_url acc) ->
    0 <= total_requests_time (fold_left step its acc)
    /\ durations_ok (requests_by_url (fold_left step its acc)).
Proof.
  induction its as [|[l|] its IH]; intros acc Hits Ht Hd; simpl.
  - auto.
  - destruct (Hits l (or_introl eq_refl)) as [Hl Hu].
    apply IH.
    + intros l' Hin. apply Hits. right. exact Hin.
    + simpl. lra.
    + simpl. apply dict_append_ok; assumption.
  - apply IH; auto. intros l' Hin. apply Hits. right. exact Hin.
Qed.

(** X11: In what [count_url] returns, the total is not negative, every key is a
    non-empty text without white space, and every list of durations is
    non-empty and holds no negative duration. *)
Theorem count_url_durations (lines : list text) (error_threshold : Q)
        (d : dict) (t : Q)
        (Hret : count_url lines error_threshold = Ok (d, t)) :
  0 <= t /\ durations_ok d.
Proof.
  destruct (count_url_ok_items _ _ Hret) as (its & Hi & -> & ->).
  apply fold_step_ok.
  - intros l Hin. apply (@parse_lines_yields lines None l I).
    fold (parse_log lines). rewrite (items_yields _ Hi). exact Hin.
  - simpl. lra.
  - intros u ds [].
Qed.

Lemma count_url_durations_witness :
  count_url [line_zero_time] default_error_threshold
  = Ok ([(str "/index.html", [0 # 1000])], 0 + (0 # 1000))
  /\ 0 <= 0 + (0 # 1000).
Proof.
  assert (H : count_url [line_zero_time] default_error_threshold
              = Ok ([(str "/index.html", [0 # 1000])], 0 + (0 # 1000)))
    by (vm_compute; reflexivity).
  split; [ exact H | ].
  exact (proj1 (@count_url_durations _ _ _ _ H)).
Defined.

(** X12: Raising the threshold never turns a result of [count_url] into a
    failure, and never changes the result. *)
Theorem count_url_threshold_mono (lines : list text) (thr thr' : Q)
        (r : dict * Q)
        (Hret : count_url lines thr = Ok r) (Hle : thr <= thr') :
  count_url lines thr' = Ok r.
Proof.
  unfold count_url in *.
  destruct (consume (parse_log lines) totals0) as [acc|]; simpl in *;
    [ | discriminate ].
  destruct (py_div (invalid_lines acc) (invalid_lines acc + parsed_lines acc))
    as [ratio|]; simpl in *; [ | discriminate ].
  destruct (Qgtb ratio thr) eqn:E; [ discriminate | ].
  unfold Qgtb in *. apply negb_false_iff, Qle_bool_iff in E.
  assert (E' : Qle_bool ratio thr' = true)
    by (apply Qle_bool_iff; apply (Qle_trans _ thr); assumption).
  rewrite E'. exact Hret.
Qed.

Lemma count_url_threshold_mono_witness :
  count_url boundary_log (2 # 10) = count_url boundary_log (5 # 10).
Proof.
  destruct (count_url boundary_log (2 # 10)) as [r|e] eqn:H.
  - symmetry. refine (@count_url_threshold_mono boundary_log (2 # 10)
                        (5 # 10) r H _).
    vm_compute. discriminate.
  - vm_compute in H. discriminate.
Defined.

End AggregatorExtras.

(** ** What the statistics computer returns *)

Section StatsExtras.
Import Py Aggregator Stats Samples.
Local Open Scope Q_scope.

Lemma py_div_raise (a b : Q) (e : exn) :
  py_div a b = Raise e -> e = ZeroDivisionError /\ b == 0.
Proof.
  unfold py_div. destruct (Qeq_bool b 0) eqn:E; [ | discriminate ].
  intros H. inversion H. split; [ reflexivity | ].
  apply Qeq_bool_iff. exact E.
Qed.

Lemma py_div_returns (a b : Q) : ~ b == 0 -> py_div a b = Ok (a / b).
Proof.
  intros H. unfold py_div. destruct (Qeq_bool b 0) eqn:E; [ | reflexivity ].
  apply Qeq_bool_iff in E. contradiction.
Qed.

Lemma Qnat_zero (n : nat) : Qnat n == 0 <-> n = 0%nat.
Proof.
  unfold Qnat. split.
  - intros H. unfold Qeq in H. simpl in H. lia.
  - intros ->. reflexivity.
Qed.

Lemma sorted_length (ds : list Q) : List.length (sorted ds) = List.length ds.
Proof. apply Permutation_length, sorted_perm. Qed.

Lemma last_item_returns (ds : list Q) :
  ds <> [] -> exists m, last_item (sorted ds) = Ok m.
Proof.
  intros H. unfold last_item.
  destruct (rev (sorted ds)) as [|x r] eqn:E; [ | exists x; reflexivity ].
  exfalso. apply H. apply length_zero_iff_nil.
  rewrite <- sorted_length, <- length_rev, E. reflexivity.
Qed.

Lemma median_returns (ds : list Q) :
  ds <> [] -> exists m, median ds = Ok m.
Proof.
  intros H. unfold median. rewrite sorted_length.
  destruct (List.length ds =? 0)%nat eqn:E.
  - apply Nat.eqb_eq, length_zero_iff_nil in E. contradiction.
  - destruct (Nat.odd (List.length ds)); eexists; reflexivity.
Qed.

Lemma url_stat_raise (n : nat) (t : Q) (u : text) (ds : list Q) (e : exn) :
  url_stat n t u ds = Raise e -> e = ZeroDivisionError.
Proof.
  unfold url_stat.
  destruct (py_div (100 * Qnat (List.length ds)) (Qnat n)) as [cp|e1] eqn:E1;
    simpl; [ | intros H; inversion H; subst; apply (py_div_raise _ _ E1) ].
  destruct (py_div (100 * py_round (sum ds) 5) t) as [tp|e2] eqn:E2;
    simpl; [ | intros H; inversion H; subst; apply (py_div_raise _ _ E2) ].
  destruct (py_div (py_round (sum ds) 5) (Qnat (List.length ds)))
    as [ta|e3] eqn:E3;
    simpl; [ | intros H; inversion H; subst; apply (py_div_raise _ _ E3) ].
  apply py_div_ok in E3. destruct E3 as [_ Hne].
  assert (Hds : ds <> []).
  { intros ->. apply Hne. reflexivity. }
  destruct (last_item_returns Hds) as (mx & ->).
  destruct (median_returns Hds) as (md & ->). simpl. discriminate.
Qed.

Lemma url_stat_returns (n : nat) (t : Q) (u : text) (ds : list Q) :
  n <> 0%nat -> ~ t == 0 -> ds <> [] -> exists s, url_stat n t u ds = Ok s.
Proof.
  intros Hn Ht Hds. unfold url_stat.
  rewrite py_div_returns by (rewrite Qnat_zero; exact Hn). simpl.
  rewrite py_div_returns by exact Ht. simpl.
  rewrite py_div_returns
    by (rewrite Qnat_zero; intros E; apply length_zero_iff_nil in E; auto).
  simpl.
  destruct (last_item_returns Hds) as (mx & ->).
  destruct (median_returns Hds) as (md & ->). simpl.
  eexists. reflexivity.
Qed.

Lemma url_stat_nonempty (n : nat) (t : Q) (u : text) (ds : list Q)
      (s : LogStats) :
  url_stat n t u ds = Ok s -> ds <> [] /\ ~ t == 0.
Proof.
  intros H. split.
  - intros ->. unfold url_stat in H.
    destruct (py_div (100 * Qnat (List.length (@nil Q))) (Qnat n));
      simpl in H; [ | discriminate ].
    destruct (py_div (100 * py_round (sum []) 5) t);
      simpl in H; [ | discriminate ].
    change (py_div (py_round (sum []) 5) (Qnat (List.length (@nil Q))))
      with (@Raise Q ZeroDivisionError) in H.
    simpl in H. discriminate.
  - apply url_stat_fields in H. tauto.
Qed.

Lemma stats_loop_raise (n : nat) (t : Q) (d : dict) :
  forall acc e, stats_loop n t d acc = Raise e -> e = ZeroDivisionError.
Proof.
  induction d as [|[u ds] d IH]; simpl; intros acc e H; [ discriminate | ].
  destruct (url_stat n t u ds) as [st|e'] eqn:E; simpl in H.
  - apply (IH _ _ H).
  - inversion H; subst. apply (url_stat_raise _ _ _ _ E).
Qed.

Lemma stats_loop_returns (n : nat) (t : Q) (d : dict) :
  n <> 0%nat -> ~ t == 0 -> (forall u ds, In (u, ds) d -> ds <> []) ->
  forall acc, exists l, stats_loop n t d acc = Ok l.
Proof.
  intros Hn Ht. induction d as [|[u ds] d IH]; simpl; intros Hd acc.
  - eexists. reflexivity.
  - destruct (@url_stat_returns n t u ds Hn Ht) as (s & ->).
    + apply (Hd u). left. reflexivity.
    + simpl. apply IH. intros u' ds' Hin. apply (Hd u'). right. exact Hin.
Qed.

(** X13: [count_url_stats] returns exactly when the map is empty, or the total
    is not zero and no URL has an empty list; when it fails, it fails with
    [ZeroDivisionError] (never with the errors of the empty-list index or of
    [statistics.median]). *)
Theorem count_url_stats_returns (d : dict) (t : Q) :
  ((exists l, count_url_stats d t = Ok l)
   <-> d = [] \/ (~ t == 0 /\ forall u ds, In (u, ds) d -> ds <> []))
  /\ forall e, count_url_stats d t = Raise e -> e = ZeroDivisionError.
Proof.
  split; [ split | ].
  - intros (l & H). destruct d as [|kv d]; [ left; reflexivity | right ].
    destruct (count_url_stats_inv _ _ H) as (l0 & _ & HF).
    split.
    + inversion HF as [|? s ? ? Hs _]; subst.
      apply (url_stat_nonempty _ _ _ _ Hs).
    + intros u ds Hin.
      destruct (Forall2_in_left HF _ Hin) as (s & _ & Hs).
      apply (url_stat_nonempty _ _ _ _ Hs).
  - intros [->|[Ht Hd]]; [ exists []; reflexivity | ].
    destruct d as [|kv d]; [ exists []; reflexivity | ].
    unfold count_url_stats.
    destruct (@stats_loop_returns (List.length (kv :: d)) t (kv :: d))
      with (acc := @nil LogStats) as (l & Hl); auto; [ discriminate | ].
    rewrite Hl. simpl. eexists. reflexivity.
  - intros e H. unfold count_url_stats in H.
    destruct (stats_loop (List.length d) t d []) as [l|e'] eqn:E;
      simpl in H; [ discriminate | ].
    inversion H; subst. apply (stats_loop_raise _ _ _ _ E).
Qed.

Lemma count_url_stats_returns_witness :
  count_url_stats [(str "/a", [])] 1 = Raise ZeroDivisionError.
Proof.
  destruct (count_url_stats [(str "/a", [])] 1) as [l|e] eqn:H.
  - vm_compute in H. discriminate.
  - rewrite (proj2 (count_url_stats_returns [(str "/a", [])] 1) e H).
    reflexivity.
Defined.

Lemma Forall2_in_right {A B} (R : A -> B -> Prop) (xs : list A) (ys : list B) :
  Forall2 R xs ys -> forall y, In y ys -> exists x, In x xs /\ R x y.
Proof.
  induction 1 as [|x0 y0 xs ys HR HF IH]; simpl; intros y Hin;
    [ contradiction | ].
  destruct Hin as [<-|Hin].
  - exists x0. auto.
  - destruct (IH y Hin) as (x & Hx & HRx). exists x. auto.
Qed.

(** *** Counts *)

Lemma total_count_insert (x : LogStats) (l : list LogStats) :
  total_count (insert_desc x l) = (count x + total_count l)%nat.
Proof.
  induction l as [|y l IH]; simpl; [ reflexivity | ].
  destruct (Qgtb (time_sum y) (time_sum x)); simpl; [ | reflexivity ].
  rewrite IH. lia.
Qed.

Lemma total_count_sorted (l : list LogStats) :
  total_count (sorted_desc l) = total_count l.
Proof.
  induction l as [|x l IH]; simpl; [ reflexivity | ].
  rewrite total_count_insert, IH. reflexivity.
Qed.

Lemma count_url_stats_total_count (d : dict) (t : Q) (l : list LogStats) :
  count_url_stats d t = Ok l ->
  List.length l = List.length d /\ total_count l = dict_count d.
Proof.
  intros H. destruct (count_url_stats_inv _ _ H) as (l0 & -> & HF). split.
  - rewrite (Permutation_length (sorted_desc_perm l0)).
    symmetry. apply (Forall2_length HF).
  - rewrite total_count_sorted. clear H.
    induction HF as [|kv s d' l' Hs HF IH]; simpl; [ reflexivity | ].
    apply url_stat_fields in Hs. destruct Hs as (_ & -> & _).
    rewrite IH. reflexivity.
Qed.

(** X15: The list returned by [count_url_stats] has one record per entry of the
    map, and the [count] fields add up to the number of durations recorded
    in the map. *)
Theorem count_url_stats_counts (d : dict) (t : Q) (l : list LogStats)
        (Hret : count_url_stats d t = Ok l) :
  List.length l = List.length d /\ total_count l = dict_count d.
Proof. exact (count_url_stats_total_count _ _ Hret). Qed.

Lemma count_url_stats_counts_witness :
  count_url_stats one_url 10
  = Ok [mkLogStats (str "/index.html") 4 (40000000 # 100000)
          (1000000 # 100000) (10000000 # 100000) (250000 # 100000) 4
          (250000 # 100000)]
  /\ total_count
       [mkLogStats (str "/index.html") 4 (40000000 # 100000)
          (1000000 # 100000) (10000000 # 100000) (250000 # 100000) 4
          (250000 # 100000)] = 4%nat.
Proof.
  assert (H : count_url_stats one_url 10
              = Ok [mkLogStats (str "/index.html") 4 (40000000 # 100000)
                      (1000000 # 100000) (10000000 # 100000)
                      (250000 # 100000) 4 (250000 # 100000)])
    by (vm_compute; reflexivity).
  split; [ exact H | ].
  exact (proj2 (@count_url_stats_counts one_url 10 _ H)).
Defined.

(** *** Ties *)





(** *** Median *)


(** *** Rounding *)

Lemma round_half_even_comp (x y : Q) :
  x == y -> round_half_even x = round_half_even y.
Proof.
  intros H. unfold round_half_even.
  assert (E : Qfloor x = Qfloor y) by (rewrite H; reflexivity).
  rewrite E.
  assert (C : Qcompare (x - inject_Z (Qfloor y)) (1 # 2)
              = Qcompare (y - inject_Z (Qfloor y)) (1 # 2))
    by (rewrite H; reflexivity).
  rewrite C. reflexivity.
Qed.

Lemma round_half_even_Z (k : Z) : round_half_even (inject_Z k) = k.
Proof.
  unfold round_half_even. rewrite Qfloor_Z.
  assert (C : Qcompare (inject_Z k - inject_Z k) (1 # 2) = Lt).
  { apply Qlt_alt.
    setoid_replace (inject_Z k - inject_Z k) with 0 by ring. reflexivity. }
  rewrite C. reflexivity.
Qed.

Lemma round_half_even_mono (x y : Q) :
  x <= y -> (round_half_even x <= round_half_even y)%Z.
Proof.
  intros Hxy.
  destruct (Z_le_gt_dec (round_half_even x) (round_half_even y))
    as [H|H]; [ exact H | exfalso ].
  pose proof (round_half_even_near x) as Hx.
  pose proof (round_half_even_near y) as Hy.
  apply Qabs_Qle_condition in Hx, Hy.
  assert (Hz : inject_Z (round_half_even y) + 1
               <= inject_Z (round_half_even x)).
  { change 1 with (inject_Z 1). rewrite <- inject_Z_plus, <- Zle_Qle. lia. }
  assert (E : x == y) by lra.
  apply round_half_even_comp in E. lia.
Qed.

Lemma scale_pos (n : nat) : (0 < 10 ^ Z.of_nat n)%Z.
Proof. apply Z.pow_pos_nonneg; [ reflexivity | apply Nat2Z.is_nonneg ]. Qed.

End StatsExtras.

(** ** What the writer leaves on disk *)

Section WriterExtras.
Import Py Writer Samples.

Lemma fs_set_same (d : fs) (p : text) (v : option text) : fs_set d p v p = v.
Proof. unfold fs_set. rewrite text_eqb_refl. reflexivity. Qed.

Lemma fs_set_other (d : fs) (p q : text) (v : option text) :
  q <> p -> fs_set d p v q = d q.
Proof.
  intros H. unfold fs_set. rewrite text_eqb_neq by exact H. reflexivity.
Qed.

Lemma write_report_disk (buffer_size : nat) (tmp_name data report_path : text)
      (w0 : world) :
  tmp_name <> report_path ->
  forall p,
    disk (write_report buffer_size tmp_name data report_path w0) p
    = if text_eqb p tmp_name then None
      else if text_eqb p report_path
           then Some (if (List.length data <=? buffer_size)%nat
                      then [] else data)
           else disk w0 p.
Proof.
  intros Hne p. unfold write_report, buffered_write.
  cbn [List.length Nat.add].
  destruct (List.length data <=? buffer_size)%nat eqn:E.
  - cbn [emit disk apply_op]. rewrite (fs_set_other _ _ Hne), fs_set_same.
    cbn [List.length Nat.add Nat.leb app emit disk apply_op close].
    assert (Hfinal : forall w : world,
               disk w = fs_set (fs_set (fs_set (disk w0) tmp_name (Some []))
                                       tmp_name (Some []))
                               report_path (Some []) \/
               (exists c, disk w = fs_set
                   (fs_set (fs_set (fs_set (disk w0) tmp_name (Some []))
                                   tmp_name (Some []))
                           report_path (Some [])) tmp_name c) ->
               disk (emit (Unlink tmp_name) w) p
               = if text_eqb p tmp_name then None
                 else if text_eqb p report_path then Some [] else disk w0 p).
    { intros w Hw. cbn [emit disk apply_op]. unfold fs_set at 1.
      destruct (text_eqb p tmp_name) eqn:Ep; [ reflexivity | ].
      destruct Hw as [-> | (c & ->)]; unfold fs_set; rewrite ?Ep;
        destruct (text_eqb p report_path); reflexivity. }
    destruct data as [|x data]; cbn [close].
    + apply Hfinal. left. reflexivity.
    + apply Hfinal. right. eexists. cbn [emit disk apply_op]. reflexivity.
  - cbn [emit disk apply_op].
    rewrite (fs_set_other _ _ Hne), fs_set_same, fs_set_same.
    cbn [app List.length Nat.add]. rewrite E.
    cbn [close emit disk apply_op].
    rewrite !fs_set_same. cbn [app].
    unfold fs_set. destruct (text_eqb p tmp_name) eqn:Ep; [ reflexivity | ].
    destruct (text_eqb p report_path); reflexivity.
Qed.

(** X19: For distinct temporary and report paths, [write_report] ends with the
    whole document at [report_path] when the document exceeds the buffer of
    the first file object, and with an empty file there otherwise, whatever
    [report_path] held before. *)
Theorem write_report_content (buffer_size : nat)
        (tmp_name data report_path : text) (w0 : world)
        (Hpaths : tmp_name <> report_path) :
  disk (write_report buffer_size tmp_name data report_path w0) report_path
  = Some (if (List.length data <=? buffer_size)%nat then [] else data).
Proof.
  rewrite (write_report_disk _ _ _ Hpaths).
  rewrite text_eqb_neq by (intros E; apply Hpaths; symmetry; exact E).
  rewrite text_eqb_refl. reflexivity.
Qed.

Lemma write_report_content_witness :
  tmp_path <> report_path
  /\ disk (write_report 4 tmp_path html report_path world0) report_path
     = Some html.
Proof.
  assert (H : tmp_path <> report_path) by discriminate.
  split; [ exact H | ].
  exact (write_report_content 4 html world0 H).
Defined.

(** X20: [write_report] removes its temporary file and leaves every file other
    than the temporary file and the report as it was. *)
Theorem write_report_frame (buffer_size : nat)
        (tmp_name data report_path : text) (w0 : world)
        (Hpaths : tmp_name <> report_path) :
  disk (write_report buffer_size tmp_name data report_path w0) tmp_name = None
  /\ forall p, p <> tmp_name -> p <> report_path ->
       disk (write_report buffer_size tmp_name data report_path w0) p
       = disk w0 p.
Proof.
  split.
  - rewrite (write_report_disk _ _ _ Hpaths), text_eqb_refl. reflexivity.
  - intros p H1 H2. rewrite (write_report_disk _ _ _ Hpaths).
    rewrite (text_eqb_neq H1), (text_eqb_neq H2). reflexivity.
Qed.

Lemma write_report_frame_witness :
  tmp_path <> report_path
  /\ disk (write_report 4 tmp_path html report_path world0) tmp_path = None.
Proof.
  assert (H : tmp_path <> report_path) by discriminate.
  split; [ exact H | ].
  exact (proj1 (write_report_frame 4 html world0 H)).
Defined.

End WriterExtras.

(** ** Configuration *)

Section ConfigExtras.
Import Py Config.

Lemma cfg_get_app (a b : config) (k : text) :
  cfg_get (a ++ b) k
  = match cfg_get a k with Some v => Some v | None => cfg_get b k end.
Proof.
  induction a as [|[k' v] a IH]; simpl; [ reflexivity | ].
  destruct (text_eqb k' k); [ reflexivity | exact IH ].
Qed.

Lemma cfg_get_set (c : config) (k k' : text) (v : value) :
  cfg_get (cfg_set c k v) k'
  = if text_eqb k k' then Some v else cfg_get c k'.
Proof.
  induction c as [|[k0 v0] c IH]; simpl.
  - reflexivity.
  - destruct (text_eqb k0 k) eqn:E; simpl.
    + apply text_eqb_eq in E. subst k0.
      destruct (text_eqb k k'); reflexivity.
    + destruct (text_eqb k0 k') eqn:E'; [ | exact IH ].
      apply text_eqb_eq in E'. subst k0.
      rewrite (@text_eqb_neq k k'); [ reflexivity | ].
      intros ->. rewrite text_eqb_refl in E. discriminate.
Qed.

Lemma cfg_get_in (c : config) (k : text) (v : value) :
  cfg_get c k = Some v -> In k (map fst c).
Proof.
  induction c as [|[k' v'] c IH]; simpl; [ discriminate | ].
  destruct (text_eqb k' k) eqn:E.
  - apply text_eqb_eq in E. auto.
  - intros H. right. apply IH. exact H.
Qed.

Lemma cfg_get_rev (c : config) (k : text) :
  NoDup (map fst c) -> cfg_get (rev c) k = cfg_get c k.
Proof.
  induction c as [|[k' v'] c IH]; simpl; intros Hnd; [ reflexivity | ].
  inversion Hnd as [|? ? Hnin Hnd']; subst.
  rewrite cfg_get_app, (IH Hnd'). simpl.
  destruct (cfg_get c k) as [v|] eqn:E.
  - apply cfg_get_in in E.
    rewrite (@text_eqb_neq k' k); [ reflexivity | ].
    intros ->. contradiction.
  - destruct (text_eqb k' k); reflexivity.
Qed.

Lemma fold_set_get (l : config) :
  forall acc k,
    cfg_get (fold_left (fun a kv => cfg_set a (fst kv) (snd kv)) l acc) k
    = match cfg_get (rev l) k with
      | Some v => Some v
      | None => cfg_get acc k
      end.
Proof.
  induction l as [|[k0 v0] l IH]; intros acc k; simpl; [ reflexivity | ].
  rewrite IH, cfg_get_app, cfg_get_set. simpl.
  destruct (cfg_get (rev l) k); [ reflexivity | ].
  destruct (text_eqb k0 k); reflexivity.
Qed.

Lemma cfg_set_keys (c : config) (k : text) (v : value) (x : text) :
  In x (map fst (cfg_set c k v)) -> x = k \/ In x (map fst c).
Proof.
  induction c as [|[k' v'] c IH]; simpl.
  - intros [H|[]]; auto.
  - destruct (text_eqb k' k); simpl; intros [H|H]; auto.
    destruct (IH H); auto.
Qed.

Lemma cfg_set_nodup (c : config) (k : text) (v : value) :
  NoDup (map fst c) -> NoDup (map fst (cfg_set c k v)).
Proof.
  induction c as [|[k' v'] c IH]; simpl; intros H.
  - constructor; [ intros [] | constructor ].
  - inversion H as [|? ? Hnin Hnd]; subst.
    destruct (text_eqb k' k) eqn:E; simpl.
    + constructor; assumption.
    + constructor; [ | apply IH; assumption ].
      intros Hin. apply cfg_set_keys in Hin. destruct Hin as [->|Hin].
      * rewrite text_eqb_refl in E. discriminate.
      * contradiction.
Qed.

Lemma fold_set_nodup (l : config) :
  forall acc,
    NoDup (map fst acc) ->
    NoDup (map fst (fold_left (fun a kv => cfg_set a (fst kv) (snd kv)) l acc)).
Proof.
  induction l as [|kv l IH]; simpl; intros acc H; [ exact H | ].
  apply IH, cfg_set_nodup, H.
Qed.

(** X21: [update_config] on two dicts: a key set in the file has the value of
    the file, any other key keeps the value of [config], and the result is
    again a dict.  A failure to load the file is passed on. *)
Theorem update_config_lookup (file_cfg cfg : config)
        (Hcfg : NoDup (map fst cfg)) (Hfile : NoDup (map fst file_cfg)) :
  (exists merged,
      update_config (Ok file_cfg) cfg = Ok merged
      /\ NoDup (map fst merged)
      /\ forall k,
          cfg_get merged k
          = match cfg_get file_cfg k with
            | Some v => Some v
            | None => cfg_get cfg k
            end)
  /\ forall e, update_config (Raise e) cfg = Raise e.
Proof.
  split; [ | reflexivity ].
  exists (merge cfg file_cfg). split; [ reflexivity | ]. split.
  - apply fold_set_nodup. constructor.
  - intros k. unfold merge.
    rewrite fold_set_get, rev_app_distr, cfg_get_app.
    rewrite (@cfg_get_rev file_cfg k Hfile), (@cfg_get_rev cfg k Hcfg). simpl.
    destruct (cfg_get file_cfg k); [ reflexivity | ].
    destruct (cfg_get cfg k); reflexivity.
Qed.

Lemma update_config_lookup_witness :
  NoDup (map fst DEFAULT_CONFIG)
  /\ exists merged,
      update_config (Ok [(str "LOG_DIR", VStr (str "/var/log"))])
                    DEFAULT_CONFIG = Ok merged
      /\ cfg_get merged (str "LOG_DIR") = Some (VStr (str "/var/log"))
      /\ cfg_get merged (str "REPORT_SIZE") = Some (VInt 1000).
Proof.
  assert (H1 : NoDup (map fst DEFAULT_CONFIG)).
  { repeat constructor; simpl; intuition discriminate. }
  assert (H2 : NoDup (map fst [(str "LOG_DIR", VStr (str "/var/log"))])).
  { repeat constructor; simpl; intuition discriminate. }
  split; [ exact H1 | ].
  destruct (proj1 (@update_config_lookup
                     [(str "LOG_DIR", VStr (str "/var/log"))]
                     DEFAULT_CONFIG H1 H2)) as (merged & Hm & _ & Hget).
  exists merged. split; [ exact Hm | ].
  split; rewrite Hget; reflexivity.
Defined.

End ConfigExtras.

(** ** Rendering *)

Section TemplateExtras.
Import Py Template.

Lemma substitute_plain (value : text) (s : text) :
  free_of dollar s -> substitute value 0 s = s.
Proof.
  unfold free_of. induction s as [|c s IH]; simpl; intros H; [ reflexivity | ].
  apply andb_true_iff in H. destruct H as [Hc Hs].
  apply negb_true_iff in Hc. rewrite Hc, (IH Hs). reflexivity.
Qed.

Lemma substitute_prefix (value : text) (pre rest : text) :
  free_of dollar pre ->
  substitute value 0 (pre ++ rest) = (pre ++ substitute value 0 rest)%list.
Proof.
  unfold free_of. induction pre as [|c pre IH]; simpl; intros H;
    [ reflexivity | ].
  apply andb_true_iff in H. destruct H as [Hc Hs].
  apply negb_true_iff in Hc. rewrite Hc, (IH Hs). reflexivity.
Qed.

Lemma substitute_named (value : text) (post : text) :
  no_id_start post ->
  substitute value 0 (dollar :: str "table_json" ++ post)
  = (value ++ substitute value 0 post)%list.
Proof.
  intros H. destruct post as [|c post].
  - reflexivity.
  - simpl in H. cbn. rewrite H. cbn. reflexivity.
Qed.

(** X22: A template without [$] is rendered as it is: the statistics do not
    reach the document.  A failure to read the template is passed on. *)
Theorem render_template_plain (json_dumps : list Stats.LogStats -> text)
        (template : text) (url_stats : list Stats.LogStats)
        (Hplain : free_of dollar template) :
  render_template json_dumps (Ok template) url_stats = Ok template
  /\ forall e, render_template json_dumps (Raise e) url_stats = Raise e.
Proof.
  split; [ | reflexivity ].
  unfold render_template, safe_substitute. simpl.
  rewrite (substitute_plain _ Hplain). reflexivity.
Qed.

Lemma render_template_plain_witness :
  free_of dollar (str "<html></html>")
  /\ render_template (fun _ => str "[]") (Ok (str "<html></html>")) []
     = Ok (str "<html></html>").
Proof.
  assert (H : free_of dollar (str "<html></html>")) by reflexivity.
  split; [ exact H | ].
  exact (proj1 (@render_template_plain (fun _ => str "[]")
                  (str "<html></html>") [] H)).
Defined.

(** X23: The first placeholder [$table_json] (not followed by an identifier
    character) or [${table_json}] of a template is replaced by the JSON text
    of the statistics; the text before it is kept, and the inserted text is
    not scanned again. *)
Theorem render_template_placeholder
        (json_dumps : list Stats.LogStats -> text)
        (pre post : text) (url_stats : list Stats.LogStats)
        (Hpre : free_of dollar pre) :
  (no_id_start post ->
   render_template json_dumps
     (Ok (pre ++ dollar :: str "table_json" ++ post)%list) url_stats
   = Ok (pre ++ json_dumps url_stats
           ++ safe_substitute (json_dumps url_stats) post)%list)
  /\ render_template json_dumps
       (Ok (pre ++ dollar :: str "{table_json}" ++ post)%list) url_stats
     = Ok (pre ++ json_dumps url_stats
             ++ safe_substitute (json_dumps url_stats) post)%list.
Proof.
  unfold render_template, safe_substitute. simpl bind. split.
  - intros Hpost. rewrite (substitute_prefix _ _ Hpre).
    do 2 f_equal. apply substitute_named. exact Hpost.
  - rewrite (substitute_prefix _ _ Hpre). reflexivity.
Qed.

Lemma render_template_placeholder_witness :
  free_of dollar (str "var table = ")
  /\ render_template (fun _ => str "[]")
       (Ok (str "var table = $table_json;")) []
     = Ok (str "var table = [];").
Proof.
  assert (H : free_of dollar (str "var table = ")) by reflexivity.
  split; [ exact H | ].
  exact (proj1 (@render_template_placeholder (fun _ => str "[]")
                  (str "var table = ") (str ";") [] H) eq_refl).
Defined.

End TemplateExtras.

(** ** The analysis of a log: [count_url] then [count_url_stats] *)

Section MainExtras.
Import Py Parser Aggregator Stats Main Samples.
Local Open Scope Q_scope.

Lemma in_dict_get (d : dict) (u : text) (ds : list Q) :
  NoDup (map fst d) -> In (u, ds) d -> dict_get d u = Some ds.
Proof.
  induction d as [|[k vs] d IH]; simpl; intros Hnd Hin; [ contradiction | ].
  inversion Hnd as [|? ? Hnin Hnd']; subst.
  destruct Hin as [H|Hin].
  - inversion H; subst. rewrite text_eqb_refl. reflexivity.
  - rewrite (@text_eqb_neq k u); [ apply IH; assumption | ].
    intros ->. apply Hnin. apply (in_map fst) in Hin. exact Hin.
Qed.

Lemma fold_step_dict_count (its : list (option LogLine)) :
  forall acc,
    dict_count (requests_by_url (fold_left step its acc))
    = (dict_count (requests_by_url acc) + count_parsed its)%nat.
Proof.
  induction its as [|[l|] its IH]; intros acc; simpl.
  - unfold count_parsed. simpl. lia.
  - rewrite IH. simpl. rewrite dict_count_append.
    unfold count_parsed. simpl. lia.
  - rewrite IH. reflexivity.
Qed.

Lemma fold_step_nodup (its : list (option LogLine)) :
  forall acc,
    NoDup (map fst (requests_by_url acc)) ->
    NoDup (map fst (requests_by_url (fold_left step its acc))).
Proof.
  induction its as [|[l|] its IH]; intros acc H; simpl.
  - exact H.
  - apply IH. simpl. apply dict_append_nodup. exact H.
  - apply IH. exact H.
Qed.

(** X24: When the analysis of a log returns, the [count] of each record is the
    number of parsed lines that carry its URL (at least one), and the counts
    add up to the number of parsed lines. *)
Theorem analyze_counts (lines : list text) (l : list LogStats)
        (Hret : analyze lines = Ok l) :
  exists its,
    items (parse_log lines) = Some its
    /\ total_count l = count_parsed its
    /\ forall s, In s l ->
         count s = List.length (times_of (url s) its) /\ count s <> 0%nat.
Proof.
  unfold analyze in Hret.
  destruct (count_url lines default_error_threshold) as [[d t]|] eqn:Hc;
    simpl in Hret; [ | discriminate ].
  destruct (count_url_ok_items _ _ Hc) as (its & Hi & Hd & _).
  exists its. split; [ exact Hi | ].
  destruct (count_url_stats_total_count _ _ Hret) as [_ Htc].
  split.
  - rewrite Htc, Hd, fold_step_dict_count. reflexivity.
  - intros s Hin.
    destruct (count_url_stats_inv _ _ Hret) as (l0 & -> & HF).
    apply (Permutation_in _ (sorted_desc_perm l0)) in Hin.
    destruct (Forall2_in_right HF _ Hin) as ([u ds] & Hkv & Hs).
    simpl in Hs. pose proof (url_stat_nonempty _ _ _ _ Hs) as [Hne _].
    apply url_stat_fields in Hs. destruct Hs as (Hu & Hcount & _).
    assert (Hget : dict_get d u = Some ds).
    { apply in_dict_get; [ | exact Hkv ].
      rewrite Hd. apply fold_step_nodup. constructor. }
    rewrite Hd, fold_step_groups in Hget. simpl in Hget.
    rewrite Hu, Hcount.
    destruct (times_of u its) as [|x ts]; [ discriminate | ].
    inversion Hget; subst ds. split; [ reflexivity | discriminate ].
Qed.

Lemma analyze_counts_witness :
  analyze log_1234
  = Ok [mkLogStats (str "/index.html") 4 (40000000 # 100000)
          (1000000 # 100000) (10000000 # 100000) (250000 # 100000)
          (40 # 10) (250000 # 100000)]
  /\ exists its, items (parse_log log_1234) = Some its
       /\ count_parsed its = 4%nat.
Proof.
  assert (H : analyze log_1234
              = Ok [mkLogStats (str "/index.html") 4 (40000000 # 100000)
                      (1000000 # 100000) (10000000 # 100000)
                      (250000 # 100000) (40 # 10) (250000 # 100000)])
    by (vm_compute; reflexivity).
  split; [ exact H | ].
  destruct (@analyze_counts log_1234 _ H) as (its & Hi & Ht & _).
  exists its. split; [ exact Hi | ]. symmetry. exact Ht.
Defined.

(** *** When the analysis returns *)






Lemma count_parsed_pos (its : list (option LogLine)) (ll : LogLine) :
  In (Some ll) its -> (0 < count_parsed its)%nat.
Proof.
  unfold count_parsed. induction its as [|[l|] its IH]; simpl; intros H.
  - contradiction.
  - lia.
  - destruct H as [H|H]; [ discriminate | auto ].
Qed.



End MainExtras.

(** ** The pipeline on binary64 floats *)

Section Binary64Properties.
Import Py Parser Aggregator Stats Binary64 Samples FloatSamples.
Local Open Scope Q_scope.

(** *** Rounding to the nearest float *)

Lemma RN_comp (x y : Q) : x == y -> RN x = RN y.
Proof. intros H. unfold RN. rewrite (Qred_complete _ _ H). reflexivity. Qed.

Lemma two_pow_pos (k : Z) : 0 < 2 ^ k.
Proof. apply Qpower_0_lt. reflexivity. Qed.

Lemma two_pow_succ (k : Z) : 2 ^ (k + 1) == 2 * 2 ^ k.
Proof.
  rewrite Qpower_plus by discriminate. rewrite Qpower_1_r. ring.
Qed.

Lemma two_pow_pred (k : Z) : 2 * 2 ^ (k - 1) == 2 ^ k.
Proof.
  rewrite <- two_pow_succ. replace (k - 1 + 1)%Z with k by lia. reflexivity.
Qed.

Lemma two_pow_Z (k : Z) : (0 <= k)%Z -> 2 ^ k == inject_Z (2 ^ k).
Proof. intros H. rewrite Zpower_Qpower by exact H. reflexivity. Qed.

Lemma two_pow_split (a b : Z) : 2 ^ (a + b) == 2 ^ a * 2 ^ b.
Proof. apply Qpower_plus. discriminate. Qed.

(** The binade of a positive rational. *)
Lemma ilog2_spec (a : Q) :
  0 < a -> 2 ^ ilog2 a <= a /\ a < 2 ^ (ilog2 a + 1).
Proof.
  intros Ha. destruct a as [n d].
  assert (Hn : (0 < n)%Z) by (unfold Qlt in Ha; simpl in Ha; lia).
  unfold ilog2. simpl Qnum. simpl Qden.
  set (ln := Z.log2 n). set (ld := Z.log2 (Z.pos d)).
  assert (Hln : (0 <= ln)%Z) by apply Z.log2_nonneg.
  assert (Hld : (0 <= ld)%Z) by apply Z.log2_nonneg.
  destruct (Z.log2_spec n Hn) as [Hn1 Hn2]. fold ln in Hn1, Hn2.
  destruct (Z.log2_spec (Z.pos d) (Pos2Z.is_pos d)) as [Hd1 Hd2].
  fold ld in Hd1, Hd2.
  assert (Hpn : (0 < 2 ^ ln)%Z) by (apply Z.pow_pos_nonneg; lia).
  assert (Hpd : (0 < 2 ^ ld)%Z) by (apply Z.pow_pos_nonneg; lia).
  rewrite Z.pow_succ_r in Hn2, Hd2 by assumption.
  rewrite Zle_Qle in Hn1, Hd1. rewrite Zlt_Qlt in Hn2, Hd2, Hpn, Hpd.
  rewrite inject_Z_mult in Hn2, Hd2.
  change (inject_Z 2) with 2 in Hn2, Hd2. change (inject_Z 0) with 0 in Hpn, Hpd.
  rewrite <- (two_pow_Z Hln) in Hn1, Hn2, Hpn.
  rewrite <- (two_pow_Z Hld) in Hd1, Hd2, Hpd.
  rewrite (Qmake_Qdiv n d).
  assert (Hk : 2 ^ (ln - ld) * 2 ^ ld == 2 ^ ln).
  { rewrite Qpower_minus by discriminate. field.
    intros E. rewrite E in Hpd. discriminate. }
  pose proof (two_pow_pos (ln - ld)) as Hx.
  set (x := 2 ^ (ln - ld)) in *. set (A := 2 ^ ln) in *.
  set (B := 2 ^ ld) in *. set (N := inject_Z n) in *.
  set (D := inject_Z (Z.pos d)) in *.
  assert (HD : 0 < D) by lra.
  assert (Hup : N / D < 2 * x).
  { apply Qlt_shift_div_r; [ exact HD | ]. nra. }
  assert (Hlo : x < 2 * (N / D)).
  { unfold Qdiv. rewrite Qmult_assoc.
    apply Qlt_shift_div_l; [ exact HD | ]. nra. }
  destruct (Qle_bool x (N / D)) eqn:E.
  - apply Qle_bool_iff in E. split; [ exact E | ].
    rewrite two_pow_succ. exact Hup.
  - assert (Hlt : N / D < x).
    { apply Qnot_le_lt. intros H. apply Qle_bool_iff in H. congruence. }
    replace (ln - ld - 1 + 1)%Z with (ln - ld)%Z by lia.
    split; [ | exact Hlt ].
    pose proof (two_pow_pred (ln - ld)) as Hp. fold x in Hp. lra.
Qed.

Lemma Qred_inject_Z (n : Z) : Qred (inject_Z n) = inject_Z n.
Proof.
  unfold Qred, inject_Z.
  pose proof (Z.ggcd_gcd n 1) as Hg.
  pose proof (Z.ggcd_correct_divisors n 1) as Hd.
  destruct (Z.ggcd n 1) as [g [aa bb]]. simpl in Hg, Hd.
  rewrite Z.gcd_1_r in Hg. subst g. destruct Hd as [Ha Hb].
  replace aa with n by lia. replace bb with 1%Z by lia. reflexivity.
Qed.

(** A float is kept in lowest terms, so two floats of equal value are the
    same. *)
Lemma RN_red (x : Q) : Qred (RN x) = RN x.
Proof.
  unfold RN. destruct (Qeq_bool (Qred x) 0); [ reflexivity | ].
  apply Qred_complete, Qred_correct.
Qed.

Lemma RN_canon (x y : Q) : RN x == y -> Qred y = y -> RN x = y.
Proof.
  intros E Hy. rewrite <- (RN_red x), <- Hy. apply Qred_complete, E.
Qed.

Lemma RN_zero (x : Q) : x == 0 -> RN x = 0.
Proof. intros H. rewrite (RN_comp H). reflexivity. Qed.

(** The value of [RN] on a positive rational: a significand, rounded
    half-even, at the exponent of the binade. *)
Lemma RN_pos (x : Q) :
  0 < x ->
  let e := Z.max (ilog2 (Qabs (Qred x)) - 52) (-1074) in
  RN x == inject_Z (round_half_even (x / 2 ^ e)) * 2 ^ e.
Proof.
  intros Hx e. unfold RN. fold e.
  assert (Hr : Qred x == x) by apply Qred_correct.
  assert (Hne : Qeq_bool (Qred x) 0 = false).
  { destruct (Qeq_bool (Qred x) 0) eqn:E; [ | reflexivity ].
    apply Qeq_bool_iff in E. rewrite Hr in E. rewrite E in Hx. discriminate. }
  rewrite Hne.
  assert (Hle : Qle_bool 0 (Qred x) = true).
  { apply Qle_bool_iff. rewrite Hr. apply Qlt_le_weak, Hx. }
  rewrite Hle. rewrite Qred_correct.
  assert (Ha : Qabs (Qred x) == x).
  { rewrite Hr. apply Qabs_pos. apply Qlt_le_weak, Hx. }
  assert (Hm : round_half_even (Qabs (Qred x) / 2 ^ e)
               = round_half_even (x / 2 ^ e)).
  { apply round_half_even_comp. rewrite Ha. reflexivity. }
  rewrite Hm. reflexivity.
Qed.

(** [RN] is odd: the sign is rounded away and put back. *)
Lemma RN_opp (x : Q) : RN (- x) = - RN x.
Proof.
  unfold RN. rewrite Qred_opp.
  set (q := Qred x).
  assert (Ez : Qeq_bool (- q) 0 = Qeq_bool q 0).
  { destruct (Qeq_bool q 0) eqn:E.
    - apply Qeq_bool_iff in E. apply Qeq_bool_iff. rewrite E. reflexivity.
    - destruct (Qeq_bool (- q) 0) eqn:E'; [ | reflexivity ].
      apply Qeq_bool_iff in E'.
      assert (X : q == 0) by lra.
      apply Qeq_bool_iff in X. congruence. }
  rewrite Ez. destruct (Qeq_bool q 0) eqn:E0; [ reflexivity | ].
  assert (Ea : Qabs (- q) = Qabs q).
  { destruct q as [n d]. unfold Qabs, Qopp. simpl. rewrite Z.abs_opp.
    reflexivity. }
  rewrite Ea.
  assert (Hq : ~ q == 0).
  { intros X. apply Qeq_bool_iff in X. congruence. }
  destruct (Qle_bool 0 q) eqn:Lq.
  - apply Qle_bool_iff in Lq.
    assert (Ln : Qle_bool 0 (- q) = false).
    { destruct (Qle_bool 0 (- q)) eqn:X; [ | reflexivity ].
      apply Qle_bool_iff in X. exfalso. apply Hq. lra. }
    rewrite Ln. apply Qred_opp.
  - assert (Ln : Qle_bool 0 (- q) = true).
    { apply Qle_bool_iff.
      assert (X : ~ 0 <= q).
      { intros X. apply Qle_bool_iff in X. congruence. }
      apply Qnot_le_lt in X. lra. }
    rewrite Ln, Qred_opp.
    match goal with |- _ = - - ?r => destruct r as [n d] end.
    unfold Qopp. simpl. rewrite Z.opp_involutive. reflexivity.
Qed.

(** The exponent [RN] works at, and the range of the scaled value. *)
Lemma RN_pos_range (x : Q) :
  0 < x ->
  exists e : Z,
    RN x == inject_Z (round_half_even (x / 2 ^ e)) * 2 ^ e
    /\ x < 2 ^ (e + 53)
    /\ ((-1074 < e)%Z -> 2 ^ (e + 52) <= x)
    /\ (-1074 <= e)%Z
    /\ forall k, 2 ^ k <= x -> (k - 52 <= e)%Z.
Proof.
  intros Hx.
  assert (Ha : Qabs (Qred x) == x).
  { rewrite Qred_correct. apply Qabs_pos, Qlt_le_weak, Hx. }
  assert (Ha0 : 0 < Qabs (Qred x)) by (rewrite Ha; exact Hx).
  destruct (ilog2_spec Ha0) as [Hl Hu].
  pose proof (RN_pos Hx) as HR. cbv zeta in HR.
  set (L := ilog2 (Qabs (Qred x))) in *. rewrite Ha in Hl, Hu.
  exists (Z.max (L - 52) (-1074)). split; [ exact HR | ].
  split; [ | split; [ | split ] ].
  - apply Qlt_le_trans with (2 ^ (L + 1)); [ exact Hu | ].
    apply Qpower_le_compat_l; [ lia | discriminate ].
  - intros He. replace (Z.max (L - 52) (-1074) + 52)%Z with L by lia.
    exact Hl.
  - lia.
  - intros k Hk.
    assert (H1 : 2 ^ k < 2 ^ (L + 1)) by (apply Qle_lt_trans with x; assumption).
    pose proof (Qpower_lt_compat_l_inv 2 k (L + 1) H1 eq_refl). lia.
Qed.

(** No integer is nearer than the rounded one. *)
Lemma round_half_even_nearest (y : Q) (k : Z) :
  Qabs (y - inject_Z (round_half_even y)) <= Qabs (y - inject_Z k).
Proof.
  pose proof (round_half_even_near y) as H.
  set (r := round_half_even y) in *.
  destruct (Z.eq_dec k r) as [->|Hne]; [ apply Qle_refl | ].
  apply Qle_trans with (1 # 2); [ exact H | ].
  apply Qabs_Qle_condition in H. destruct H as [H1 H2].
  destruct (Z_lt_ge_dec k r) as [L|G].
  - assert (H3 : inject_Z k + 1 <= inject_Z r).
    { change 1 with (inject_Z 1). rewrite <- inject_Z_plus, <- Zle_Qle. lia. }
    rewrite Qabs_pos by lra. lra.
  - assert (H3 : inject_Z r + 1 <= inject_Z k).
    { change 1 with (inject_Z 1). rewrite <- inject_Z_plus, <- Zle_Qle. lia. }
    rewrite Qabs_neg by lra. lra.
Qed.

Lemma round_half_even_nonneg (y : Q) : 0 <= y -> (0 <= round_half_even y)%Z.
Proof.
  intros H. rewrite <- (round_half_even_Z 0).
  apply round_half_even_mono. exact H.
Qed.

(** The significand has at most 53 bits. *)
Lemma RN_pos_significand (x : Q) :
  0 < x ->
  exists m e : Z,
    RN x == inject_Z m * 2 ^ e
    /\ m = round_half_even (x / 2 ^ e)
    /\ (0 <= m <= 2 ^ 53)%Z /\ (-1074 <= e)%Z
    /\ ((-1074 < e)%Z -> 2 ^ (e + 52) <= x).
Proof.
  intros Hx. destruct (RN_pos_range Hx) as (e & R & U & L & M & _).
  exists (round_half_even (x / 2 ^ e)), e.
  split; [ exact R | ]. split; [ reflexivity | ].
  split; [ | split; assumption ].
  pose proof (two_pow_pos e) as Pe.
  split.
  - apply round_half_even_nonneg.
    apply Qle_shift_div_l; [ exact Pe | ]. rewrite Qmult_0_l.
    apply Qlt_le_weak, Hx.
  - rewrite <- (round_half_even_Z (2 ^ 53)).
    apply round_half_even_mono.
    apply Qle_shift_div_r; [ exact Pe | ].
    rewrite <- two_pow_Z by lia. rewrite <- two_pow_split.
    rewrite Z.add_comm. apply Qlt_le_weak, U.
Qed.

(** Among the multiples of [2^e], that of the rounded significand is
    nearest. *)
Lemma scaled_nearest (x : Q) (e k : Z) :
  Qabs (inject_Z (round_half_even (x / 2 ^ e)) * 2 ^ e - x)
  <= Qabs (inject_Z k * 2 ^ e - x).
Proof.
  pose proof (two_pow_pos e) as Pe.
  pose proof (round_half_even_nearest (x / 2 ^ e) k) as H.
  set (m := round_half_even (x / 2 ^ e)) in *.
  assert (Hne : ~ 2 ^ e == 0) by (intros E; rewrite E in Pe; discriminate).
  assert (E1 : inject_Z m * 2 ^ e - x == - (x / 2 ^ e - inject_Z m) * 2 ^ e)
    by (field; exact Hne).
  assert (E2 : inject_Z k * 2 ^ e - x == - (x / 2 ^ e - inject_Z k) * 2 ^ e)
    by (field; exact Hne).
  rewrite E1, E2, !Qabs_Qmult, !Qabs_opp.
  apply Qmult_le_compat_r; [ exact H | apply Qabs_nonneg ].
Qed.

(** [RN x] is a binary64 number nearest to a positive [x]: no
    non-negative binary64 number is nearer. *)
Lemma RN_nearest_pos (x : Q) (m e : Z) :
  0 < x -> (0 <= m <= 2 ^ 53)%Z -> (-1074 <= e)%Z ->
  Qabs (RN x - x) <= Qabs (inject_Z m * 2 ^ e - x).
Proof.
  intros Hx Hm He.
  destruct (RN_pos_significand Hx) as (mx & ex & R & Emx & Bm & Bex & L).
  rewrite R, Emx.
  destruct (Z_le_gt_dec ex e) as [Hle|Hgt].
  - (* the other number is a multiple of 2^ex *)
    assert (E : inject_Z m * 2 ^ e == inject_Z (m * 2 ^ (e - ex)) * 2 ^ ex).
    { rewrite inject_Z_mult, <- two_pow_Z by lia.
      rewrite <- Qmult_assoc, <- two_pow_split.
      replace (e - ex + ex)%Z with e by lia. reflexivity. }
    rewrite E. apply scaled_nearest.
  - (* the other number lies below the binade of x *)
    assert (Hx52 : 2 ^ (ex + 52) <= x) by (apply L; lia).
    assert (Hf : inject_Z m * 2 ^ e <= 2 ^ (ex + 52)).
    { apply Qle_trans with (inject_Z (2 ^ 53) * 2 ^ e).
      - apply Qmult_le_compat_r; [ rewrite <- Zle_Qle; lia | ].
        apply Qlt_le_weak, two_pow_pos.
      - rewrite <- two_pow_Z by lia. rewrite <- two_pow_split.
        apply Qpower_le_compat_l; [ lia | discriminate ]. }
    pose proof (scaled_nearest x ex (2 ^ 52)) as H.
    assert (E : inject_Z (2 ^ 52) * 2 ^ ex == 2 ^ (ex + 52)).
    { rewrite <- two_pow_Z by lia. rewrite <- two_pow_split.
      rewrite Z.add_comm. reflexivity. }
    rewrite E in H.
    apply Qle_trans with (Qabs (2 ^ (ex + 52) - x)); [ exact H | ].
    rewrite !Qabs_neg by lra. lra.
Qed.

Lemma is_binary64_opp (f : Q) : is_binary64 f -> is_binary64 (- f).
Proof.
  intros (m & e & Hm & He & E). exists (- m)%Z, e.
  split; [ rewrite Z.abs_opp; exact Hm | ]. split; [ exact He | ].
  rewrite E, inject_Z_opp. ring.
Qed.

(** [RN x] is a binary64 number. *)
Lemma RN_binary64 (x : Q) : is_binary64 (RN x).
Proof.
  assert (P : forall y, 0 < y -> is_binary64 (RN y)).
  { intros y Hy.
    destruct (RN_pos_significand Hy) as (m & e & R & _ & Bm & Be & _).
    exists m, e. split; [ rewrite Z.abs_eq; lia | ]. split; assumption. }
  destruct (Q_dec x 0) as [[Hn|Hp]|Hz].
  - assert (E : RN x = - RN (- x)).
    { rewrite <- RN_opp. apply RN_comp. ring. }
    rewrite E. apply is_binary64_opp, P. lra.
  - apply P, Hp.
  - rewrite (RN_zero Hz). exists 0%Z, 0%Z.
    split; [ simpl; lia | ]. split; [ lia | reflexivity ].
Qed.

(** No binary64 number is nearer to [x] than [RN x]. *)
Lemma RN_nearest (x f : Q) :
  is_binary64 f -> Qabs (RN x - x) <= Qabs (f - x).
Proof.
  assert (P : forall y g, 0 < y -> is_binary64 g ->
                Qabs (RN y - y) <= Qabs (g - y)).
  { intros y g Hy (m & e & Hm & He & E). rewrite E.
    destruct (Z_le_gt_dec 0 m) as [H0|H0].
    - apply RN_nearest_pos; [ exact Hy | lia | exact He ].
    - apply Qle_trans with (Qabs (inject_Z 0 * 2 ^ e - y)).
      + apply RN_nearest_pos; [ exact Hy | lia | exact He ].
      + assert (Hneg : inject_Z m * 2 ^ e <= 0).
        { setoid_replace (inject_Z m * 2 ^ e)
            with (- (inject_Z (- m) * 2 ^ e))
            by (rewrite inject_Z_opp; ring).
          assert (0 <= inject_Z (- m) * 2 ^ e); [ | lra ].
          apply Qmult_le_0_compat.
          - change 0 with (inject_Z 0). rewrite <- Zle_Qle. lia.
          - apply Qlt_le_weak, two_pow_pos. }
        change (inject_Z 0) with 0. rewrite Qmult_0_l.
        rewrite !Qabs_neg by lra. lra. }
  intros Hf. destruct (Q_dec x 0) as [[Hn|Hp]|Hz].
  - assert (E : RN x = - RN (- x)).
    { rewrite <- RN_opp. apply RN_comp. ring. }
    rewrite E.
    assert (Hy : 0 < - x) by lra.
    pose proof (P (- x) (- f) Hy (is_binary64_opp Hf)) as H.
    setoid_replace (- RN (- x) - x) with (- (RN (- x) - - x)) by ring.
    setoid_replace (f - x) with (- (- f - - x)) by ring.
    rewrite !Qabs_opp. exact H.
  - apply P; assumption.
  - rewrite (RN_zero Hz).
    setoid_replace (0 - x) with 0 by (rewrite Hz; ring).
    apply Qabs_nonneg.
Qed.

(** A binary64 number is its own rounding. *)
Lemma RN_exact (f : Q) : is_binary64 f -> RN f == f.
Proof.
  intros Hf. pose proof (RN_nearest f Hf) as H.
  setoid_replace (f - f) with 0 in H by ring.
  change (Qabs 0) with 0 in H.
  apply Qabs_Qle_condition in H. destruct H as [H1 H2]. lra.
Qed.

Lemma RN_idem (x : Q) : RN (RN x) = RN x.
Proof.
  apply RN_canon; [ apply RN_exact, RN_binary64 | apply RN_red ].
Qed.

(** Integers up to 2^53 are floats: converting them loses nothing. *)
Lemma RN_int (n : Z) : (0 <= n <= 2 ^ 53)%Z -> RN (inject_Z n) = inject_Z n.
Proof.
  intros H. apply RN_canon; [ | apply Qred_inject_Z ].
  apply RN_exact. exists n, 0%Z.
  split; [ rewrite Z.abs_eq; lia | ]. split; [ lia | ].
  change (2 ^ 0) with 1. ring.
Qed.

(** [RN] keeps the order of positive numbers. *)
Lemma RN_mono_pos (x y : Q) : 0 < x -> x <= y -> RN x <= RN y.
Proof.
  intros Hx Hxy.
  assert (Hy : 0 < y) by lra.
  destruct (RN_pos_range Hx) as (ex & Rx & Ux & Lx & Mx & _).
  destruct (RN_pos_range Hy) as (ey & Ry & _ & Ly & My & By).
  rewrite Rx, Ry.
  pose proof (two_pow_pos ex) as Pex. pose proof (two_pow_pos ey) as Pey.
  destruct (Z_lt_ge_dec ex ey) as [Hlt|Hge].
  - (* a lower binade *)
    assert (H1 : inject_Z (round_half_even (x / 2 ^ ex)) <= inject_Z (2 ^ 53)).
    { rewrite <- Zle_Qle. rewrite <- (round_half_even_Z (2 ^ 53)).
      apply round_half_even_mono.
      apply Qle_shift_div_r; [ exact Pex | ].
      rewrite <- two_pow_Z by lia. rewrite <- two_pow_split.
      rewrite Z.add_comm. apply Qlt_le_weak, Ux. }
    assert (H2 : inject_Z (2 ^ 52) <= inject_Z (round_half_even (y / 2 ^ ey))).
    { rewrite <- Zle_Qle. rewrite <- (round_half_even_Z (2 ^ 52)) at 1.
      apply round_half_even_mono.
      apply Qle_shift_div_l; [ exact Pey | ].
      rewrite <- two_pow_Z by lia. rewrite <- two_pow_split.
      rewrite Z.add_comm. apply Ly. lia. }
    apply Qle_trans with (inject_Z (2 ^ 53) * 2 ^ ex).
    { apply Qmult_le_compat_r; [ exact H1 | apply Qlt_le_weak, Pex ]. }
    apply Qle_trans with (inject_Z (2 ^ 52) * 2 ^ ey).
    2:{ apply Qmult_le_compat_r; [ exact H2 | apply Qlt_le_weak, Pey ]. }
    rewrite <- !two_pow_Z by lia. rewrite <- !two_pow_split.
    apply Qpower_le_compat_l; [ lia | discriminate ].
  - (* the same binade *)
    assert (E : ex = ey).
    { assert (ex <= ey)%Z; [ | lia ].
      destruct (Z.eq_dec ex (-1074)) as [->|Hn]; [ exact My | ].
      assert (H1 : 2 ^ (ex + 52) <= y)
        by (apply Qle_trans with x; [ apply Lx; lia | exact Hxy ]).
      specialize (By _ H1). lia. }
    subst ey.
    apply Qmult_le_compat_r; [ | apply Qlt_le_weak, Pex ].
    rewrite <- Zle_Qle. apply round_half_even_mono.
    apply Qmult_le_compat_r; [ exact Hxy | ].
    apply Qlt_le_weak, Qinv_lt_0_compat, Pex.
Qed.

Lemma RN_nonneg (x : Q) : 0 <= x -> 0 <= RN x.
Proof.
  intros H. destruct (Qlt_le_dec 0 x) as [Hx|Hx].
  - destruct (RN_pos_range Hx) as (e & R & _). rewrite R.
    apply Qmult_le_0_compat; [ | apply Qlt_le_weak, two_pow_pos ].
    change 0 with (inject_Z 0). rewrite <- Zle_Qle.
    rewrite <- (round_half_even_Z 0). apply round_half_even_mono.
    apply Qle_shift_div_l; [ apply two_pow_pos | ].
    change (inject_Z 0) with 0. rewrite Qmult_0_l. exact H.
  - rewrite (@RN_zero x) by lra. apply Qle_refl.
Qed.

(** [RN] keeps the order. *)
Lemma RN_mono (x y : Q) : x <= y -> RN x <= RN y.
Proof.
  assert (P : forall a b, 0 <= a -> a <= b -> RN a <= RN b).
  { intros a b H0 Hab. destruct (Qlt_le_dec 0 a) as [Ha|Ha].
    - apply RN_mono_pos; assumption.
    - rewrite (@RN_zero a) by lra. apply RN_nonneg. lra. }
  assert (O : forall a, RN a == - RN (- a)).
  { intros a. rewrite RN_opp. ring. }
  intros Hxy. destruct (Qlt_le_dec x 0) as [Hx|Hx].
  - destruct (Qlt_le_dec y 0) as [Hy|Hy].
    + rewrite (O x), (O y).
      assert (H : RN (- y) <= RN (- x)) by (apply P; lra). lra.
    + rewrite (O x).
      assert (H1 : 0 <= RN (- x)) by (apply RN_nonneg; lra).
      assert (H2 : 0 <= RN y) by (apply RN_nonneg; exact Hy). lra.
  - apply P; assumption.
Qed.

(** The float nearest to 0.1; 0.1 + 0.2 is not the float nearest to 0.3. *)
Example RN_tenth : RN (1 # 10) = 3602879701896397 # 36028797018963968.
Proof. vm_compute. reflexivity. Qed.

Example fadd_tenths :
  fadd (RN (1 # 10)) (RN (2 # 10)) = 1351079888211149 # 4503599627370496
  /\ RN (3 # 10) = 5404319552844595 # 18014398509481984.
Proof. split; vm_compute; reflexivity. Qed.

(** Ties between two floats go to the even significand, also among the
    subnormal numbers. *)
Example RN_ties :
  RN (inject_Z (2 ^ 53 + 1)) = inject_Z (2 ^ 53)
  /\ RN (inject_Z (2 ^ 53 + 3)) = inject_Z (2 ^ 53 + 4)
  /\ RN (inject_Z 1 * 2 ^ (-1075)) = 0
  /\ RN (inject_Z 3 * 2 ^ (-1075)) = Qred (inject_Z 2 * 2 ^ (-1074)).
Proof. repeat split; vm_compute; reflexivity. Qed.

(** *** The aggregator on floats *)

Lemma fadd_Qnat_1 (k : nat) :
  (Z.of_nat (S k) < 2 ^ 53)%Z -> fadd (Qnat k) 1 = Qnat (S k).
Proof.
  intros H. unfold fadd.
  rewrite (@RN_comp (Qnat k + 1) (Qnat (S k))) by (symmetry; apply Qnat_S).
  apply RN_int. lia.
Qed.

Lemma parse_lines_length (lines : list text) :
  forall url_var its,
    items (Binary64.parse_lines url_var lines) = Some its ->
    List.length its = List.length lines.
Proof.
  induction lines as [|line rest IH]; simpl; intros url_var its H.
  - inversion H. reflexivity.
  - destruct (Binary64.parse_line url_var line) as [[item url_var']|e];
      simpl in H; [ | discriminate ].
    destruct (items (Binary64.parse_lines url_var' rest)) as [its'|] eqn:E;
      simpl in H; [ | discriminate ].
    inversion H; subst. simpl. rewrite (IH _ _ E). reflexivity.
Qed.

Lemma consume_fold (s : stream (option LogLine)) :
  forall acc acc',
    Binary64.consume s acc = Ok acc' ->
    exists its, items s = Some its /\ acc' = fold_left Binary64.step its acc.
Proof.
  induction s as [|a s IH|e]; simpl; intros acc acc' H.
  - inversion H. exists []. auto.
  - destruct (IH _ _ H) as (its & Hi & Ha). exists (a :: its).
    rewrite Hi. auto.
  - discriminate.
Qed.

Lemma parsed_invalid_length (its : list (option LogLine)) :
  (count_parsed its + count_invalid its)%nat = List.length its.
Proof.
  unfold count_parsed, count_invalid.
  induction its as [|[l|] its IH]; simpl; lia.
Qed.

(** The map is built by [dict_append] alone: rounding does not touch it. *)
Lemma fold_step_dict (its : list (option LogLine)) :
  forall acc acc',
    requests_by_url acc = requests_by_url acc' ->
    requests_by_url (fold_left Binary64.step its acc)
    = requests_by_url (fold_left Aggregator.step its acc').
Proof.
  induction its as [|[l|] its IH]; intros acc acc' H; simpl.
  - exact H.
  - apply IH. simpl. rewrite H. reflexivity.
  - apply IH. simpl. exact H.
Qed.

(** The running total is the float sum of the parsed durations in the
    order of the log. *)
Lemma fold_step_total (its : list (option LogLine)) :
  forall acc,
    total_requests_time (fold_left Binary64.step its acc)
    = fold_left fadd (parsed_times its) (total_requests_time acc).
Proof.
  induction its as [|[l|] its IH]; intros acc; simpl.
  - reflexivity.
  - rewrite IH. reflexivity.
  - rewrite IH. reflexivity.
Qed.

(** Below 2^53 lines the float counters count exactly. *)
Lemma fold_step_float_counters (its : list (option LogLine)) :
  forall acc p i,
    parsed_lines acc = Qnat p -> invalid_lines acc = Qnat i ->
    (Z.of_nat (p + i + List.length its) < 2 ^ 53)%Z ->
    parsed_lines (fold_left Binary64.step its acc)
    = Qnat (p + count_parsed its)
    /\ invalid_lines (fold_left Binary64.step its acc)
       = Qnat (i + count_invalid its).
Proof.
  induction its as [|[l|] its IH]; intros acc p i Hp Hi Hb.
  - unfold count_parsed, count_invalid. simpl.
    rewrite !Nat.add_0_r. auto.
  - simpl List.length in Hb.
    change (fold_left Binary64.step (Some l :: its) acc)
      with (fold_left Binary64.step its (Binary64.step acc (Some l))).
    destruct (IH (Binary64.step acc (Some l)) (S p) i) as [H1 H2].
    + simpl. rewrite Hp. apply fadd_Qnat_1. lia.
    + simpl. exact Hi.
    + lia.
    + rewrite H1, H2. unfold count_parsed, count_invalid. simpl.
      split; f_equal; lia.
  - simpl List.length in Hb.
    change (fold_left Binary64.step (None :: its) acc)
      with (fold_left Binary64.step its (Binary64.step acc None)).
    destruct (IH (Binary64.step acc None) p (S i)) as [H1 H2].
    + simpl. exact Hp.
    + simpl. rewrite Hi. apply fadd_Qnat_1. lia.
    + lia.
    + rewrite H1, H2. unfold count_parsed, count_invalid. simpl.
      split; f_equal; lia.
Qed.

Lemma recorded_append (d : dict) (k : text) (v : Q) :
  Permutation (recorded (dict_append d k v)) (recorded d ++ [v]).
Proof.
  unfold recorded. induction d as [|[k' vs] d IH]; simpl.
  - reflexivity.
  - destruct (text_eqb k' k); simpl.
    + rewrite <- !app_assoc. apply Permutation_app_head.
      apply Permutation_app_comm.
    + rewrite <- app_assoc. apply Permutation_app_head. exact IH.
Qed.

Lemma fold_step_recorded (its : list (option LogLine)) :
  forall acc,
    Permutation (recorded (requests_by_url (fold_left Aggregator.step its acc)))
                (recorded (requests_by_url acc) ++ parsed_times its).
Proof.
  induction its as [|[l|] its IH]; intros acc; simpl.
  - rewrite app_nil_r. reflexivity.
  - rewrite IH. simpl. rewrite recorded_append, <- app_assoc. reflexivity.
  - exact (IH (Aggregator.step acc None)).
Qed.

Lemma times_of_single (u : text) (its : list (option LogLine)) :
  (forall k, k <> u -> times_of k its = []) ->
  times_of u its = parsed_times its.
Proof.
  induction its as [|[l|] its IH]; intros H; simpl.
  - reflexivity.
  - destruct (text_eqb (Parser.url l) u) eqn:E.
    + f_equal. apply IH. intros k Hk. specialize (H k Hk). simpl in H.
      destruct (text_eqb (Parser.url l) k); [ discriminate | exact H ].
    + exfalso.
      assert (Hne : Parser.url l <> u).
      { intros X. apply text_eqb_eq in X. congruence. }
      specialize (H _ Hne). simpl in H.
      rewrite (proj2 (text_eqb_eq _ _) eq_refl) in H. discriminate.
  - apply IH. intros k Hk. exact (H k Hk).
Qed.

(** With a single URL the map keeps the order of the log. *)
Lemma fold_step_single (its : list (option LogLine)) (u : text) (ds : list Q) :
  requests_by_url (fold_left Aggregator.step its totals0) = [(u, ds)] ->
  ds = parsed_times its.
Proof.
  intros H.
  assert (G : forall k,
             dict_get [(u, ds)] k
             = match times_of k its with [] => None | ts => Some ts end).
  { intros k. rewrite <- H, fold_step_groups. reflexivity. }
  assert (Hothers : forall k, k <> u -> times_of k its = []).
  { intros k Hk. specialize (G k). simpl in G.
    destruct (text_eqb u k) eqn:E.
    - apply text_eqb_eq in E. congruence.
    - destruct (times_of k its); [ reflexivity | discriminate ]. }
  rewrite <- (times_of_single _ Hothers).
  specialize (G u). simpl in G.
  rewrite (proj2 (text_eqb_eq _ _) eq_refl) in G.
  destruct (times_of u its) as [|x ts].
  - discriminate.
  - inversion G. reflexivity.
Qed.

(** C8, as the code has it: whenever [count_url] returns on a log of fewer
    than 2^53 lines, the loop has read every line, the two counters add up
    to the number of lines and the lengths of the duration lists of the
    (distinct) URLs add up to the parsed counter.  The durations recorded
    across all URLs are those of the parsed lines, in another order; the
    returned total is the float sum of the parsed durations taken in the
    order of the log, which is the sum of the recorded list when the map has
    a single URL. *)
Theorem count_url_invariants (lines : list text) (error_threshold : Q)
        (d : dict) (t : Q)
        (Hlen : (Z.of_nat (List.length lines) < 2 ^ 53)%Z)
        (Hret : Binary64.count_url lines error_threshold = Ok (d, t)) :
  exists (its : list (option LogLine)) (acc : totals),
    items (Binary64.parse_log lines) = Some its
    /\ Binary64.consume (Binary64.parse_log lines) totals0 = Ok acc
    /\ d = requests_by_url acc /\ t = total_requests_time acc
    /\ parsed_lines acc + invalid_lines acc == Qnat (List.length lines)
    /\ Qnat (dict_count d) == parsed_lines acc
    /\ Permutation (recorded d) (parsed_times its)
    /\ t = Binary64.sum (parsed_times its)
    /\ (forall u ds, d = [(u, ds)] -> t = Binary64.sum ds)
    /\ NoDup (map fst d).
Proof.
  unfold Binary64.count_url in Hret.
  destruct (Binary64.consume (Binary64.parse_log lines) totals0)
    as [acc|e] eqn:Hc; simpl in Hret; [ | discriminate ].
  destruct (fdiv (invalid_lines acc)
                 (fadd (invalid_lines acc) (parsed_lines acc)))
    as [ratio|e]; simpl in Hret; [ | discriminate ].
  destruct (Qgtb ratio error_threshold); [ discriminate | ].
  inversion Hret; subst d t. clear Hret.
  destruct (consume_fold _ _ Hc) as (its & Hits & Hacc).
  pose proof (parse_lines_length _ _ Hits) as Hl.
  exists its, acc. split; [ exact Hits | ]. split; [ reflexivity | ].
  split; [ reflexivity | ]. split; [ reflexivity | ].
  destruct (@fold_step_float_counters its totals0 0 0 eq_refl eq_refl)
    as [Hp Hi]; [ simpl; rewrite Hl; exact Hlen | ].
  simpl in Hp, Hi. rewrite <- Hacc in Hp, Hi.
  assert (Hd : requests_by_url acc
               = requests_by_url (fold_left Aggregator.step its totals0))
    by (rewrite Hacc; apply fold_step_dict; reflexivity).
  assert (Ht : total_requests_time acc = Binary64.sum (parsed_times its))
    by (rewrite Hacc; apply fold_step_total).
  split; [ | split; [ | split; [ | split; [ | split ] ] ] ].
  - rewrite Hp, Hi, <- Hl, <- (parsed_invalid_length its).
    unfold Qnat. rewrite Nat2Z.inj_add, inject_Z_plus. reflexivity.
  - rewrite Hd, fold_step_dict_count, Hp. reflexivity.
  - rewrite Hd. apply (fold_step_recorded its totals0).
  - exact Ht.
  - intros u ds E. rewrite Ht. f_equal. symmetry.
    apply (@fold_step_single its u ds). rewrite <- Hd. exact E.
  - rewrite Hd. apply fold_step_nodup. constructor.
Qed.

Lemma count_url_invariants_witness :
  Binary64.count_url log_aba Binary64.default_error_threshold
  = Ok (aba_dict, fadd (fadd (RN (1 # 10)) (RN (1 # 10))) (RN (4 # 10)))
  /\ exists its,
       Permutation (recorded aba_dict) (parsed_times its)
       /\ fadd (fadd (RN (1 # 10)) (RN (1 # 10))) (RN (4 # 10))
          = Binary64.sum (parsed_times its).
Proof.
  assert (H : Binary64.count_url log_aba Binary64.default_error_threshold
              = Ok (aba_dict,
                    fadd (fadd (RN (1 # 10)) (RN (1 # 10))) (RN (4 # 10))))
    by (vm_compute; reflexivity).
  assert (Hlen : (Z.of_nat (List.length log_aba) < 2 ^ 53)%Z)
    by (vm_compute; reflexivity).
  split; [ exact H | ].
  destruct (@count_url_invariants log_aba Binary64.default_error_threshold
              _ _ Hlen H)
    as (its & acc & _ & _ & _ & _ & _ & _ & Hperm & Ht & _).
  exists its. split; assumption.
Defined.

(** On the lines [/a 0.1], [/b 0.1], [/a 0.4] the returned total is
    0.6000000000000001, while the durations recorded in the map add up to
    0.6 as floats, URL by URL or all in a row, and to a third value as
    exact numbers. *)
Lemma count_url_total_order_fails :
  ~ total_is_recorded_sum log_aba Binary64.default_error_threshold.
Proof.
  intros H.
  assert (Hret : Binary64.count_url log_aba Binary64.default_error_threshold
                 = Ok (aba_dict,
                       fadd (fadd (RN (1 # 10)) (RN (1 # 10))) (RN (4 # 10))))
    by (vm_compute; reflexivity).
  destruct (H _ _ Hret) as [E|[E|E]]; vm_compute in E; discriminate.
Qed.

(** *** Rounding to decimal digits *)

Lemma round_half_even_tie (y : Q) :
  Qabs (y - inject_Z (round_half_even y)) == 1 # 2 ->
  Z.even (round_half_even y) = true.
Proof.
  unfold round_half_even.
  pose proof (Qfloor_le y) as Hl. pose proof (Qlt_floor y) as Hu.
  set (f := Qfloor y) in *.
  rewrite inject_Z_plus in Hu. change (inject_Z 1) with 1 in Hu.
  destruct (Qcompare_spec (y - inject_Z f) (1 # 2)) as [E|L|G].
  - intros _. destruct (Z.even f) eqn:Ev; [ exact Ev | ].
    rewrite Z.even_add, Ev. reflexivity.
  - intros H. exfalso.
    rewrite Qabs_pos in H by lra. lra.
  - intros H. exfalso.
    rewrite inject_Z_plus in H. change (inject_Z 1) with 1 in H.
    rewrite Qabs_neg in H by lra. lra.
Qed.

(** [round(x, n)] is [x] rounded to [n] decimal digits. *)
Lemma round_spec (x : Q) (n : nat) : rounded_to n x (Binary64.round x n).
Proof.
  exists (round_half_even (x * inject_Z (10 ^ Z.of_nat n))).
  split; [ apply round_half_even_near | ].
  split; [ apply round_half_even_tie | ].
  unfold Binary64.round, py_round. apply RN_comp.
  rewrite Qmake_Qdiv, Z2Pos.id by apply scale_pos. reflexivity.
Qed.

(** Two integers within half a unit of the same number are equal, unless
    both are ties; one of two neighbours is odd. *)
Lemma rounded_to_unique (n : nat) (x r r' : Q) :
  rounded_to n x r -> rounded_to n x r' -> r = r'.
Proof.
  intros (k & Hk & Tk & ->) (k' & Hk' & Tk' & ->).
  set (v := x * inject_Z (10 ^ Z.of_nat n)) in *.
  assert (E : k = k'); [ | rewrite E; reflexivity ].
  pose proof Hk as Ak. pose proof Hk' as Ak'.
  apply Qabs_Qle_condition in Ak, Ak'.
  destruct (Z.lt_trichotomy k k') as [L|[E|L]]; [ exfalso | exact E | exfalso ].
  - assert (H1 : inject_Z k + 1 <= inject_Z k').
    { change 1 with (inject_Z 1). rewrite <- inject_Z_plus, <- Zle_Qle. lia. }
    assert (Ev : Z.even k = true).
    { apply Tk. rewrite Qabs_pos by lra. lra. }
    assert (Ev' : Z.even k' = true).
    { apply Tk'. rewrite Qabs_neg by lra. lra. }
    assert (E1 : k' = (k + 1)%Z).
    { assert (H2 : inject_Z k' <= inject_Z k + 1) by lra.
      change 1 with (inject_Z 1) in H2.
      rewrite <- inject_Z_plus, <- Zle_Qle in H2. lia. }
    rewrite E1, Z.even_add, Ev in Ev'. discriminate.
  - assert (H1 : inject_Z k' + 1 <= inject_Z k).
    { change 1 with (inject_Z 1). rewrite <- inject_Z_plus, <- Zle_Qle. lia. }
    assert (Ev : Z.even k = true).
    { apply Tk. rewrite Qabs_neg by lra. lra. }
    assert (Ev' : Z.even k' = true).
    { apply Tk'. rewrite Qabs_pos by lra. lra. }
    assert (E1 : k = (k' + 1)%Z).
    { assert (H2 : inject_Z k <= inject_Z k' + 1) by lra.
      change 1 with (inject_Z 1) in H2.
      rewrite <- inject_Z_plus, <- Zle_Qle in H2. lia. }
    rewrite E1, Z.even_add, Ev' in Ev. discriminate.
Qed.

Lemma py_round_mono (x y : Q) (n : nat) :
  x <= y -> py_round x n <= py_round y n.
Proof.
  intros Hxy. unfold py_round.
  pose proof (scale_pos n) as Hpos.
  set (s := (10 ^ Z.of_nat n)%Z) in *.
  assert (Hs : 0 <= inject_Z s)
    by (change 0 with (inject_Z 0); rewrite <- Zle_Qle; lia).
  assert (Hm : x * inject_Z s <= y * inject_Z s)
    by (apply Qmult_le_compat_r; assumption).
  apply round_half_even_mono in Hm.
  unfold Qle. simpl. apply Z.mul_le_mono_nonneg_r; [ lia | exact Hm ].
Qed.

(** [round(x, n)] keeps the order of floats. *)
Lemma round_mono (x y : Q) (n : nat) :
  x <= y -> Binary64.round x n <= Binary64.round y n.
Proof.
  intros Hxy. unfold Binary64.round. apply RN_mono, py_round_mono, Hxy.
Qed.

(** X18: [round(x, n)] on a float is [x] rounded to [n] decimal digits,
    and nothing else is; the result is a binary64 number, and rounding keeps
    the order. *)
Theorem round_properties (x : Q) (n : nat) :
  rounded_to n x (Binary64.round x n)
  /\ (forall r, rounded_to n x r -> r = Binary64.round x n)
  /\ is_binary64 (Binary64.round x n)
  /\ forall y, x <= y -> Binary64.round x n <= Binary64.round y n.
Proof.
  split; [ apply round_spec | ]. split; [ | split ].
  - intros r Hr. apply (rounded_to_unique Hr (round_spec x n)).
  - apply RN_binary64.
  - intros y Hxy. apply round_mono. exact Hxy.
Qed.

Lemma round_properties_witness :
  RN (1 # 3) <= RN (2 # 3)
  /\ Binary64.round (RN (1 # 3)) 5 <= Binary64.round (RN (2 # 3)) 5
  /\ Binary64.round (RN (25 # 1000000)) 5 = RN (3 # 100000).
Proof.
  assert (H : RN (1 # 3) <= RN (2 # 3)) by (vm_compute; discriminate).
  split; [ exact H | ]. split.
  - exact (proj2 (proj2 (proj2 (round_properties (RN (1 # 3)) 5)))
                 (RN (2 # 3)) H).
  - symmetry.
    apply (proj1 (proj2 (round_properties (RN (25 # 1000000)) 5))).
    exists 3%Z. split; [ vm_compute; discriminate | ].
    split; [ intros E; vm_compute in E; discriminate | ].
    apply RN_comp. reflexivity.
Defined.

(** The float 2.5e-05 lies above the decimal tie, so [round(2.5e-05, 5)]
    is 3e-05; the float 0.001 / 8 lies above 0.000125, so a [time_sum] of
    0.001 over 8 requests has [time_avg] 0.00013; and a [time_sum] of 0.001
    out of a total of 20000 has [time_perc] 1e-05. *)
Example round_above_tie :
  Binary64.round (RN (25 # 1000000)) 5 = RN (3 # 100000)
  /\ Binary64.round (fquot (RN (1 # 1000)) (float_of_int 8)) 5
     = RN (13 # 100000)
  /\ Binary64.round (fquot (fmul 100 (RN (1 # 1000))) 20000) 5
     = RN (1 # 100000).
Proof. repeat split; vm_compute; reflexivity. Qed.

(** *** Median *)






(** *** The statistics on floats *)

Lemma fdiv_ok (a b r : Q) : fdiv a b = Ok r -> r = fquot a b /\ ~ b == 0.
Proof.
  unfold fdiv. destruct (Qeq_bool b 0) eqn:E; [ discriminate | ].
  intros H. inversion H. split; [ reflexivity | ].
  intros X. apply Qeq_bool_iff in X. congruence.
Qed.

Lemma int_truediv_ok (a b : Z) (r : Q) :
  int_truediv a b = Ok r -> r = fquot (inject_Z a) (inject_Z b) /\ b <> 0%Z.
Proof.
  unfold int_truediv. destruct (b =? 0)%Z eqn:E; [ discriminate | ].
  intros H. inversion H. split; [ reflexivity | ].
  apply Z.eqb_neq. exact E.
Qed.

(** [statistics.median] returns the median. *)
Lemma median_spec (ds : list Q) (m : Q) :
  Binary64.median ds = Ok m -> is_median m ds.
Proof.
  unfold Binary64.median. intros H. exists (sorted ds).
  split; [ apply sorted_perm | ]. split; [ apply sorted_sorted | ].
  destruct (List.length (sorted ds) =? 0)%nat eqn:E; [ discriminate | ].
  split.
  - intros X. rewrite X in E. discriminate.
  - cbv zeta. destruct (Nat.odd (List.length (sorted ds)));
      apply Ok_inj in H; subst m; reflexivity.
Qed.

Lemma url_stat_float_fields (n : nat) (t : Q) (u : text) (ds : list Q)
      (s : LogStats) :
  Binary64.url_stat n t u ds = Ok s ->
  url s = u /\ count s = List.length ds
  /\ count_perc s
     = Binary64.round (fquot (100 * Qnat (List.length ds)) (Qnat n)) 5
  /\ time_sum s = Binary64.round (Binary64.sum ds) 5
  /\ (time_perc s = Binary64.round (fquot (fmul 100 (time_sum s)) t) 5
      /\ ~ t == 0)
  /\ time_avg s
     = Binary64.round
         (fquot (time_sum s) (float_of_int (Z.of_nat (count s)))) 5
  /\ last_item (sorted ds) = Ok (time_max s)
  /\ exists m, Binary64.median ds = Ok m /\ time_med s = Binary64.round m 5.
Proof.
  unfold Binary64.url_stat.
  destruct (int_truediv (100 * Z.of_nat (List.length ds)) (Z.of_nat n))
    as [cp|] eqn:E1; simpl; [ | discriminate ].
  destruct (fdiv (fmul 100 (Binary64.round (Binary64.sum ds) 5)) t)
    as [tp|] eqn:E2; simpl; [ | discriminate ].
  destruct (fdiv (Binary64.round (Binary64.sum ds) 5)
                 (float_of_int (Z.of_nat (List.length ds))))
    as [ta|] eqn:E3; simpl; [ | discriminate ].
  destruct (last_item (sorted ds)) as [mx|] eqn:E4; simpl; [ | discriminate ].
  destruct (Binary64.median ds) as [md|] eqn:E5; simpl; [ | discriminate ].
  intros H. inversion H; subst s; simpl.
  apply int_truediv_ok in E1. apply fdiv_ok in E2, E3.
  destruct E1 as [-> _], E2 as [-> Ht], E3 as [-> _].
  repeat split; try reflexivity; try assumption.
  exists md. split; reflexivity.
Qed.

Lemma stats_loop_float_spec (n : nat) (t : Q) (d : dict) :
  forall acc l, Binary64.stats_loop n t d acc = Ok l ->
  exists l', l = (acc ++ l')%list
    /\ Forall2 (fun kv s => Binary64.url_stat n t (fst kv) (snd kv) = Ok s)
               d l'.
Proof.
  induction d as [|[u ds] d IH]; simpl; intros acc l H.
  - inversion H. exists []. rewrite app_nil_r. split; constructor.
  - destruct (Binary64.url_stat n t u ds) as [st|] eqn:E; simpl in H;
      [ | discriminate ].
    apply IH in H. destruct H as (l' & -> & HF).
    exists (st :: l'). split.
    + rewrite <- app_assoc. reflexivity.
    + constructor; assumption.
Qed.

Lemma count_url_stats_float_inv (d : dict) (t : Q) (l : list LogStats) :
  Binary64.count_url_stats d t = Ok l ->
  exists l0, l = sorted_desc l0
    /\ Forall2 (fun kv s =>
                  Binary64.url_stat (List.length d) t (fst kv) (snd kv) = Ok s)
               d l0.
Proof.
  unfold Binary64.count_url_stats. intros H.
  destruct (Binary64.stats_loop (List.length d) t d []) as [l0|] eqn:E;
    simpl in H; [ | discriminate ].
  inversion H; subst l. exists l0. split; [ reflexivity | ].
  apply stats_loop_float_spec in E. destruct E as (l' & -> & HF). exact HF.
Qed.

Lemma Forall2_float_urls (n : nat) (t : Q) (d : dict) (l : list LogStats) :
  Forall2 (fun kv s => Binary64.url_stat n t (fst kv) (snd kv) = Ok s) d l ->
  map url l = map fst d.
Proof.
  induction 1 as [|kv s d l HR HF IH]; simpl; [ reflexivity | ].
  apply url_stat_float_fields in HR. destruct HR as [-> _].
  rewrite IH. reflexivity.
Qed.

(** Float sum and median of four durations equal to 1, 2, 3 and 4. *)
Lemma durations_1234_float (ds : list Q) :
  Forall2 Qeq ds [1; 2; 3; 4] ->
  Binary64.sum ds = 10 /\ Binary64.median ds = Ok (5 # 2).
Proof.
  intros H.
  inversion H as [|a ? ? ? Ha H1]; subst. clear H.
  inversion H1 as [|b ? ? ? Hb H2]; subst. clear H1.
  inversion H2 as [|c ? ? ? Hc H3]; subst. clear H2.
  inversion H3 as [|e ? ? ? He H4]; subst. clear H3.
  inversion H4; subst. clear H4.
  split.
  - unfold Binary64.sum. cbn [fold_left]. unfold fadd.
    rewrite (@RN_comp (0 + a) 1) by (rewrite Ha; reflexivity).
    rewrite (@RN_comp (RN 1 + b) 3) by (rewrite Hb; reflexivity).
    rewrite (@RN_comp (RN 3 + c) 6) by (rewrite Hc; reflexivity).
    rewrite (@RN_comp (RN 6 + e) 10) by (rewrite He; reflexivity).
    vm_compute. reflexivity.
  - assert (Hs : sorted [a; b; c; e] = [a; b; c; e]).
    { unfold sorted. simpl fold_right.
      change (insert c [e]) with (if Qgtb c e then [e; c] else [c; e]).
      rewrite (@Qgtb_le c e) by (rewrite Hc, He; discriminate).
      change (insert b [c; e])
        with (if Qgtb b c then c :: insert b [e] else [b; c; e]).
      rewrite (@Qgtb_le b c) by (rewrite Hb, Hc; discriminate).
      change (insert a [b; c; e])
        with (if Qgtb a b then b :: insert a [c; e] else [a; b; c; e]).
      rewrite (@Qgtb_le a b) by (rewrite Ha, Hb; discriminate).
      reflexivity. }
    unfold Binary64.median. rewrite Hs. cbn [List.length Nat.eqb Nat.odd
      Nat.even negb Nat.div Nat.divmod fst Nat.sub nth].
    unfold fadd.
    rewrite (@RN_comp (b + c) 5) by (rewrite Hb, Hc; reflexivity).
    vm_compute. reflexivity.
Qed.

(** C3, as the code has it: when [count_url_stats] returns, the list holds
    one record per URL of the map, and the record of a URL with durations
    [ds] has [count_perc] = the float quotient 100 * count / (number of
    URLs) rounded to 5 digits, [time_sum] = the float sum of [ds] rounded
    to 5 digits, [time_avg] = the float quotient of the rounded [time_sum]
    by [count], rounded to 5 digits, [time_max] = a largest element of
    [ds], unrounded, and [time_med] = the median of [ds] rounded to 5
    digits.  For durations 1, 2, 3, 4 these are 10, 2.5, 4 and 2.5. *)
Theorem count_url_stats_fields (d : dict) (t : Q) (l : list LogStats)
        (Hret : Binary64.count_url_stats d t = Ok l) :
  Permutation (map url l) (map fst d)
  /\ (forall u ds, In (u, ds) d ->
      exists s, In s l /\ url s = u /\ count s = List.length ds
        /\ rounded_to 5 (fquot (100 * Qnat (count s)) (Qnat (List.length d)))
                      (count_perc s)
        /\ rounded_to 5 (Binary64.sum ds) (time_sum s)
        /\ rounded_to 5 (fquot (time_sum s)
                               (float_of_int (Z.of_nat (count s))))
                      (time_avg s)
        /\ is_max (time_max s) ds
        /\ exists m, is_median m ds /\ rounded_to 5 m (time_med s))
  /\ (forall u ds, In (u, ds) d -> Forall2 Qeq ds [1; 2; 3; 4] ->
      exists s, In s l /\ url s = u
        /\ time_sum s == 10 /\ time_avg s == 5 # 2
        /\ time_max s == 4 /\ time_med s == 5 # 2).
Proof.
  destruct (count_url_stats_float_inv _ _ Hret) as (l0 & -> & HF).
  assert (Hrec : forall u ds, In (u, ds) d ->
      exists s, In s (sorted_desc l0)
        /\ Binary64.url_stat (List.length d) t u ds = Ok s).
  { intros u ds Hin.
    destruct (Forall2_in_left HF _ Hin) as (s & Hs & Hst). simpl in Hst.
    exists s. split; [ | exact Hst ].
    apply (Permutation_in _ (Permutation_sym (sorted_desc_perm l0))).
    exact Hs. }
  split; [ | split ].
  - rewrite <- (@Forall2_float_urls _ _ _ _ HF).
    apply Permutation_map, sorted_desc_perm.
  - intros u ds Hin. destruct (Hrec u ds Hin) as (s & Hs & Hst).
    apply url_stat_float_fields in Hst.
    destruct Hst as (Hu & Hc & Hcp & Hsum & _ & Havg & Hmax & m & Hm & Hmed).
    exists s. split; [ exact Hs | ]. split; [ exact Hu | ].
    split; [ exact Hc | ].
    split; [ rewrite Hcp, Hc; apply round_spec | ].
    split; [ rewrite Hsum; apply round_spec | ].
    split; [ rewrite Havg; apply round_spec | ].
    split; [ apply last_item_sorted_max; exact Hmax | ].
    exists m. split; [ apply median_spec; exact Hm | ].
    rewrite Hmed. apply round_spec.
  - intros u ds Hin Hds. destruct (Hrec u ds Hin) as (s & Hs & Hst).
    apply url_stat_float_fields in Hst.
    destruct Hst as (Hu & Hc & _ & Hsum & _ & Havg & Hmax & m & Hm & Hmed).
    exists s. split; [ exact Hs | ]. split; [ exact Hu | ].
    destruct (durations_1234_float Hds) as (Hsum' & Hmed').
    destruct (durations_1234 Hds) as (_ & Hmax' & _ & Hlen).
    rewrite Hmed' in Hm. apply Ok_inj in Hm. subst m.
    rewrite Hsum' in Hsum. rewrite Hsum, Hc, Hlen in Havg.
    rewrite Hsum, Havg, Hmed.
    repeat split; try (vm_compute; reflexivity).
    apply Hmax'. apply last_item_sorted_max. exact Hmax.
Qed.

Lemma count_url_stats_fields_witness :
  Binary64.count_url_stats one_url 10
  = Ok [mkLogStats (str "/index.html") 4 400 10 100 (5 # 2) 4 (5 # 2)]
  /\ exists s, url s = str "/index.html"
       /\ time_sum s == 10 /\ time_avg s == 5 # 2
       /\ time_max s == 4 /\ time_med s == 5 # 2.
Proof.
  assert (H : Binary64.count_url_stats one_url 10
              = Ok [mkLogStats (str "/index.html") 4 400 10 100 (5 # 2) 4
                      (5 # 2)])
    by (vm_compute; reflexivity).
  split; [ exact H | ].
  assert (HF : Forall2 Qeq [1; 2; 3; 4] [1; 2; 3; 4])
    by (repeat constructor; reflexivity).
  destruct (proj2 (proj2 (@count_url_stats_fields one_url 10 _ H))
                  (str "/index.html") [1; 2; 3; 4] (or_introl eq_refl) HF)
    as (s & _ & Hu & Hrest).
  exists s. split; assumption.
Defined.

(** *** The share of the total *)






(** *** The two readings of floats side by side *)

(** A line is parsed in the same way on floats, but for the duration,
    which is rounded to the nearest float. *)
Lemma parse_line_rounds (url_var : option text) (line : text) :
  Binary64.parse_line url_var line
  = match Parser.parse_line url_var line with
    | Ok (Some l, v) =>
        Ok (Some (mkLogLine (Parser.url l) (RN (Parser.time l))), v)
    | r => r
    end.
Proof.
  unfold Binary64.parse_line, Parser.parse_line, Binary64.float.
  destruct (Regex.search LOG_FORMAT_PATTERN line) as [[|g1 [|g2 [|g3 gs]]]|];
    try reflexivity.
  destruct (py_float g2) as [q|e]; simpl; [ | reflexivity ].
  destruct (match split g1 with [_; u; _] => Some u | _ => url_var end);
    reflexivity.
Qed.

(** With three URLs of one request each, [count_perc] is the float
    33.33333. *)
Example count_perc_three_urls :
  option_map (map count_perc)
    (match Binary64.count_url_stats three_urls 3 with
     | Ok l => Some l
     | Raise _ => None
     end)
  = Some [RN (3333333 # 100000); RN (3333333 # 100000);
          RN (3333333 # 100000)].
Proof. vm_compute. reflexivity. Qed.

(** The whole pipeline on four requests of one URL, on floats. *)
Example pipeline_1234_float :
  Binary64.count_url log_1234 Binary64.default_error_threshold
  = Ok (one_url, 10)
  /\ Binary64.count_url_stats one_url 10
     = Ok [mkLogStats (str "/index.html") 4 400 10 100 (5 # 2) 4 (5 # 2)].
Proof. split; vm_compute; reflexivity. Qed.

End Binary64Properties.
